(** * Calendar summary: the normalization pipeline of [main.py]

    A shallow embedding of the calendar pipeline of [main.py]
    ([daterange_window], [parse_ics], [within_range], [dedupe_and_sort],
    [group_by_day] and the feed loop of [main]) together with the part of
    Python's [datetime] semantics these functions rely on, and of what
    follows the pipeline: [html_to_text] with the part of [re] it uses,
    the Slack messages and the delivery steps at the end of [main]. *)

From Stdlib Require Import ZArith Lia Bool List String Ascii.
From Stdlib Require Import Sorting.Sorted Sorting.Permutation.
From Stdlib Require Import Structures.OrderedTypeEx.
From stdpp Require Import gmap strings.
Import ListNotations.

Local Open Scope string_scope.
Local Open Scope list_scope.
Local Open Scope Z_scope.

(** ** Python's [datetime] values *)

(** A calendar date is its proleptic Gregorian ordinal, [date.toordinal()]:
    day 1 is 0001-01-01, a Monday.  Python keeps (year, month, day) and goes
    through the ordinal for all arithmetic; [ord2ymd] and [ymd2ord] below are
    the two conversions. *)
Definition date := Z.

(** The wall-clock fields of a [datetime] (no [tzinfo]). *)
Record naive := mknaive {
  nd_date : date;
  nd_hour : Z;
  nd_minute : Z;
  nd_second : Z;
  nd_microsecond : Z
}.

(** An aware [datetime]: wall-clock fields plus the UTC offset (seconds east
    of UTC) its [tzinfo] reports.  The [tzinfo] objects met by this program
    report one fixed offset each: pytz hands out one object per offset of a
    zone ([localize], [fromutc]), and the zone object itself, attached with
    [tzinfo=tz], reports the zone's base offset. *)
Record datetime := mkdatetime {
  local : naive;
  utcoffset : Z
}.

Definition valid_naive (n : naive) : Prop :=
  0 <= nd_hour n < 24 /\ 0 <= nd_minute n < 60 /\ 0 <= nd_second n < 60 /\
  0 <= nd_microsecond n < 1000000.

(** Seconds from midnight of ordinal 0 to the wall-clock reading. *)
Definition timestamp (n : naive) : Z :=
  nd_date n * 86400 + nd_hour n * 3600 + nd_minute n * 60 + nd_second n.

(** The fields of a count of seconds ([divmod] normalization). *)
Definition of_timestamp (s us : Z) : naive :=
  {| nd_date := s / 86400;
     nd_hour := (s mod 86400) / 3600;
     nd_minute := (s mod 3600) / 60;
     nd_second := s mod 60;
     nd_microsecond := us |}.

(** [n + timedelta(days=days, seconds=seconds)] on the wall-clock fields.
    (Python raises [OverflowError] past year 9999; ordinals are unbounded
    here, and the occurrences come from the horizon 1970-2100.) *)
Definition add_timedelta (n : naive) (days seconds : Z) : naive :=
  of_timestamp (timestamp n + days * 86400 + seconds) (nd_microsecond n).

(** [dt + timedelta(...)] on an aware value: arithmetic on the fields, the
    [tzinfo] is kept. *)
Definition dt_add (a : datetime) (days seconds : Z) : datetime :=
  {| local := add_timedelta (local a) days seconds; utcoffset := utcoffset a |}.

(** The absolute instant of an aware value, in microseconds of UTC. *)
Definition instant (a : datetime) : Z :=
  (timestamp (local a) - utcoffset a) * 1000000 + nd_microsecond (local a).

(** Comparison, equality and subtraction of aware values go through UTC
    (when both carry the same [tzinfo] object Python compares the fields,
    which is the same thing for an object with one offset). *)
Definition dt_leb (a b : datetime) : bool := instant a <=? instant b.
Definition dt_ltb (a b : datetime) : bool := instant a <? instant b.
Definition dt_geb (a b : datetime) : bool := instant b <=? instant a.
Definition dt_eqb (a b : datetime) : bool := instant a =? instant b.

(** [a - b], as a [timedelta] in microseconds. *)
Definition dt_sub (a b : datetime) : Z := instant a - instant b.

(** [datetime.combine(d, time.min)]. *)
Definition combine_min (d : date) : naive :=
  {| nd_date := d; nd_hour := 0; nd_minute := 0; nd_second := 0;
     nd_microsecond := 0 |}.

(** [n.replace(hour=h, minute=m, second=s, microsecond=us)]. *)
Definition replace_time (n : naive) (h m s us : Z) : naive :=
  {| nd_date := nd_date n; nd_hour := h; nd_minute := m; nd_second := s;
     nd_microsecond := us |}.

(** [weekday()]: Monday is 0, Sunday is 6. *)
Definition weekday_of_date (d : date) : Z := (d + 6) mod 7.
Definition weekday (n : naive) : Z := weekday_of_date (nd_date n).

(** ** The target timezone (a pytz zone) *)

(** What the program uses of the zone object [tz]:
    - [tz_zone_utcoffset]: the offset the zone object itself reports when it
      is attached as is ([datetime(..., tzinfo=tz)]);
    - [tz_localize_utcoffset]: the offset [tz.localize] chooses for a
      wall-clock reading;
    - [tz_utcoffset_at]: the offset in force at a UTC time (in seconds), as
      used by [astimezone(tz)] and [datetime.now(tz)]. *)
Record tzinfo := mktz {
  tz_zone_utcoffset : Z;
  tz_localize_utcoffset : naive -> Z;
  tz_utcoffset_at : Z -> Z
}.

(** [tz.localize(n)] *)
Definition localize (tz : tzinfo) (n : naive) : datetime :=
  {| local := n; utcoffset := tz_localize_utcoffset tz n |}.

(** [a.astimezone(tz)]: the same instant, read on the zone's clock. *)
Definition astimezone (tz : tzinfo) (a : datetime) : datetime :=
  let utc := timestamp (local a) - utcoffset a in
  let off := tz_utcoffset_at tz utc in
  {| local := of_timestamp (utc + off) (nd_microsecond (local a));
     utcoffset := off |}.

(** A zone with one offset throughout. *)
Definition fixed_zone (off : Z) : tzinfo :=
  {| tz_zone_utcoffset := off;
     tz_localize_utcoffset := fun _ => off;
     tz_utcoffset_at := fun _ => off |}.

Definition UTC : tzinfo := fixed_zone 0.

(** ** Calendar fields of a date and [strftime] *)

Definition is_leap (year : Z) : bool :=
  (year mod 4 =? 0) && (negb (year mod 100 =? 0) || (year mod 400 =? 0)).

Definition DAYS_IN_MONTH : list Z :=
  [-1; 31; 28; 31; 30; 31; 30; 31; 31; 30; 31; 30; 31].

Definition DAYS_BEFORE_MONTH : list Z :=
  [-1; 0; 31; 59; 90; 120; 151; 181; 212; 243; 273; 304; 334].

Definition table (t : list Z) (i : Z) : Z := nth (Z.to_nat i) t 0.

Definition days_before_year (year : Z) : Z :=
  let y := year - 1 in y * 365 + y / 4 - y / 100 + y / 400.

Definition days_before_month (year month : Z) : Z :=
  table DAYS_BEFORE_MONTH month +
  (if (2 <? month) && is_leap year then 1 else 0).

(** [date(year, month, day).toordinal()] *)
Definition ymd2ord (year month day : Z) : date :=
  days_before_year year + days_before_month year month + day.

(** [date.fromordinal(n)] as (year, month, day) *)
Definition ord2ymd (n : date) : Z * Z * Z :=
  let n := n - 1 in
  let n400 := n / 146097 in
  let n := n mod 146097 in
  let year := n400 * 400 + 1 in
  let n100 := n / 36524 in
  let n := n mod 36524 in
  let n4 := n / 1461 in
  let n := n mod 1461 in
  let n1 := n / 365 in
  let n := n mod 365 in
  let year := year + n100 * 100 + n4 * 4 + n1 in
  if (n1 =? 4) || (n100 =? 4) then (year - 1, 12, 31)
  else
    let leapyear := (n1 =? 3) && (negb (n4 =? 24) || (n100 =? 3)) in
    let month := Z.shiftr (n + 50) 5 in
    let preceding :=
      table DAYS_BEFORE_MONTH month +
      (if (2 <? month) && leapyear then 1 else 0) in
    if n <? preceding then
      let month := month - 1 in
      let preceding :=
        preceding - (table DAYS_IN_MONTH month +
                     (if (month =? 2) && leapyear then 1 else 0)) in
      (year, month, n - preceding + 1)
    else (year, month, n - preceding + 1).

Definition digit (n : Z) : ascii :=
  ascii_of_nat (48 + Z.to_nat (n mod 10)).

(** A field zero-padded to two digits ([%d], [%m], [%H], [%M]). *)
Definition two_digits (n : Z) : string :=
  String (digit (n / 10)) (String (digit n) "").

(** [%Y], for the years 1000 to 9999 (below, the padding depends on the
    platform). *)
Definition four_digits (n : Z) : string :=
  String (digit (n / 1000)) (String (digit (n / 100)) (two_digits n)).

(** [%A] in the C locale (the program sets no locale). *)
Definition weekday_name (w : Z) : string :=
  nth (Z.to_nat w)
    ["Monday"; "Tuesday"; "Wednesday"; "Thursday"; "Friday"; "Saturday";
     "Sunday"] "".

(** [strftime('%d.%m.')] *)
Definition strftime_dm (n : naive) : string :=
  let '(_, m, d) := ord2ymd (nd_date n) in
  two_digits d +:+ "." +:+ two_digits m +:+ ".".

(** [strftime('%d.%m.%Y')] *)
Definition strftime_dmY (n : naive) : string :=
  let '(y, _, _) := ord2ymd (nd_date n) in
  strftime_dm n +:+ four_digits y.

(** [strftime('%A %d.%m.%Y')] *)
Definition strftime_A_dmY (n : naive) : string :=
  weekday_name (weekday n) +:+ " " +:+ strftime_dmY n.

(** [strftime('%H:%M')] *)
Definition strftime_HM (n : naive) : string :=
  two_digits (nd_hour n) +:+ ":" +:+ two_digits (nd_minute n).

(** A Python [date] lies between 0001-01-01 and 9999-12-31. *)
Definition valid_date (d : date) : Prop := 1 <= d <= 3652059.

(** [p] holds of [count] consecutive integers from [start]. *)
Fixpoint all_from (p : Z -> bool) (start : Z) (count : nat) : bool :=
  match count with
  | O => true
  | S count' => p start && all_from p (start + 1) count'
  end.

(** Day [r + 1] of the first 400 years: its fields are in range, lead back
    to the ordinal, and the year stays below 400 up to 30 December 399. *)
Definition cycle_day_ok (r : Z) : bool :=
  let '(y, m, d) := ord2ymd (r + 1) in
  (1 <=? y) && (y <=? 400) && (1 <=? m) && (m <=? 12) &&
  (1 <=? d) && (d <=? 31) && (ymd2ord y m d =? r + 1) &&
  ((145730 <? r) || (y <=? 399)).

(** ** Results of fallible code *)

(** A Python call either returns or raises; an exception is kept as its
    message ([str(e)]). *)
Inductive result (A : Type) : Type :=
| Ok (a : A)
| Raise (msg : string).
Arguments Ok {A} a.
Arguments Raise {A} msg.

Definition bind {A B : Type} (r : result A) (k : A -> result B) : result B :=
  match r with
  | Ok a => k a
  | Raise msg => Raise msg
  end.

Notation "'let*' x ':=' r 'in' k" := (bind r (fun x => k))
  (at level 10, x name, r at level 100, k at level 200).

(** ** WindowCalculator: [daterange_window] *)

(** The clock reading [now = datetime.now(tz)] is passed in. *)
Definition daterange_window (mode : string) (tz : tzinfo) (now : datetime)
  : result (datetime * datetime * string) :=
  if String.eqb mode "daily" then
    let target := dt_add now 1 0 in
    let start :=
      {| local := mknaive (nd_date (local target)) 0 0 0 0;
         utcoffset := tz_zone_utcoffset tz |} in
    let end_ :=
      {| local := mknaive (nd_date (local target)) 23 59 59 0;
         utcoffset := tz_zone_utcoffset tz |} in
    let title := "Zítřejší plán – " +:+ strftime_A_dmY (local start) in
    Ok (start, end_, title)
  else if String.eqb mode "weekly" then
    let weekday := weekday (local now) in
    let days_to_next_monday := (7 - weekday) mod 7 in
    let monday :=
      {| local := replace_time (local (dt_add now days_to_next_monday 0))
                    0 0 0 0;
         utcoffset := utcoffset now |} in
    let start := monday in
    let end_ :=
      {| local := replace_time (local (dt_add monday 6 0)) 23 59 59 0;
         utcoffset := utcoffset now |} in
    let title :=
      "Týdenní plán – " +:+ strftime_dm (local start) +:+ "–" +:+
      strftime_dmY (local end_) in
    Ok (start, end_, title)
  else Raise "mode must be 'daily' or 'weekly'".

(** ** Raw occurrences and events *)

(** The value [.dt] of a DTSTART or DTEND property. *)
Inductive temporal : Type :=
| DateOnly (d : date)      (** a [date] that is not a [datetime] *)
| Floating (n : naive)     (** a [datetime] whose [tzinfo] is [None] *)
| Zoned (a : datetime).    (** a [datetime] with a [tzinfo] of one offset *)

(** [isinstance(v, date) and not isinstance(v, datetime)] *)
Definition is_date_only (v : temporal) : bool :=
  match v with
  | DateOnly _ => true
  | _ => false
  end.

(** One component of the expanded calendar; a property that is absent is
    [None] ([component.get] returns [None]).  Text properties arrive as
    [str] values. *)
Record Component := mkComponent {
  name : string;
  SUMMARY : option string;
  LOCATION : option string;
  DTSTART : option temporal;
  DTEND : option temporal
}.

(** The dictionary built for each occurrence. *)
Record Event := mkEvent {
  ev_title : string;
  ev_start : datetime;
  ev_end : datetime;
  ev_is_all_day : bool;
  ev_location : string;
  ev_calendar_name : string
}.

(** A start as Python holds it: fields in range, a date of years 1-9999. *)
Definition valid_start (ev : Event) : Prop :=
  valid_naive (local (ev_start ev)) /\
  valid_date (nd_date (local (ev_start ev))).

Definition safe_str (v : option string) : string :=
  match v with
  | None => ""
  | Some s => s
  end.

(** [s or default] on strings: the empty string is false. *)
Definition str_or (s default : string) : string :=
  if String.eqb s "" then default else s.

(** ** EventNormalizer: the loop body of [parse_ics] *)

(** A timed value brought to an aware one: a [datetime] is kept when it has
    a [tzinfo] and localized when it is floating; a plain date is taken at
    midnight in the target zone. *)
Definition to_aware (tz : tzinfo) (v : temporal) : datetime :=
  match v with
  | Zoned a => a
  | Floating n => localize tz n
  | DateOnly d => localize tz (combine_min d)
  end.

(** The start, the end and the all-day flag of an occurrence.  In the timed
    branch the start is a [datetime] (the source's inner [else] for a start
    that is no [datetime] is never reached: a date-only start takes the
    first branch), while the end may still be a plain date. *)
Definition normalize_times (tz : tzinfo) (dtstart : temporal)
    (dtend : option temporal) : datetime * datetime * bool :=
  match dtstart with
  | DateOnly d =>
      let start_dt := localize tz (combine_min d) in
      let end_dt :=
        match dtend with
        | Some (DateOnly e) => localize tz (combine_min e)
        | _ => dt_add start_dt 1 0
        end in
      (start_dt, end_dt, true)
  | _ =>
      let start_dt := to_aware tz dtstart in
      let end_dt :=
        match dtend with
        | Some e => to_aware tz e
        | None => dt_add start_dt 0 3600
        end in
      (astimezone tz start_dt, astimezone tz end_dt, false)
  end.

(** One turn of [for component in comps]: [None] when the component is
    skipped.  A component without DTSTART raises ([None] has no [dt]). *)
Definition parse_component (tz : tzinfo) (calendar_name : string)
    (component : Component) : result (option Event) :=
  if negb (String.eqb (name component) "VEVENT") then Ok None
  else
    let summary := safe_str (SUMMARY component) in
    let location := safe_str (LOCATION component) in
    match DTSTART component with
    | None => Raise "'NoneType' object has no attribute 'dt'"
    | Some dtstart =>
        let '(start_dt, end_dt, is_all_day) :=
          normalize_times tz dtstart (DTEND component) in
        Ok (Some {| ev_title := str_or summary "(Bez názvu)";
                    ev_start := start_dt;
                    ev_end := end_dt;
                    ev_is_all_day := is_all_day;
                    ev_location := str_or location "";
                    ev_calendar_name := calendar_name |})
    end.

Fixpoint parse_components (tz : tzinfo) (calendar_name : string)
    (comps : list Component) (events : list Event) : result (list Event) :=
  match comps with
  | [] => Ok events
  | component :: rest =>
      let* r := parse_component tz calendar_name component in
      parse_components tz calendar_name rest
        (match r with
         | Some ev => events ++ [ev]
         | None => events
         end)
  end.

(** The network and the calendar libraries: for a URL, either the expanded
    components ([requests.get], [raise_for_status], [Calendar.from_ical]
    and the recurrence expansion all succeeded) or the exception raised.
    The loop is modelled on every component; which components the expansion
    really returns is said by [expanded], below. *)
Definition feeds := string -> result (list Component).

Definition parse_ics (web : feeds) (url : string) (tz : tzinfo)
    (calendar_name : string) : result (list Event) :=
  let* comps := web url in
  parse_components tz calendar_name comps [].

(** ** What the expansion hands to the loop *)

(** [n <= n'] on two datetimes without [tzinfo]: the fields, in order. *)
Definition naive_le (n n' : naive) : Prop :=
  timestamp n * 1000000 + nd_microsecond n <=
  timestamp n' * 1000000 + nd_microsecond n'.

(** A start and an end of one kind (two plain dates, two floating datetimes
    or two aware datetimes) with the end not before the start, as Python
    compares values of that kind. *)
Definition in_order (dtstart dtend : temporal) : Prop :=
  match dtstart, dtend with
  | DateOnly d, DateOnly d' => d <= d'
  | Floating n, Floating n' => naive_le n n'
  | Zoned a, Zoned a' => instant a <= instant a'
  | _, _ => False
  end.

(** The components of [comps] (main.py:173-177) are not the components of
    the feed: [recurring_ical_events] builds each occurrence itself, a
    VEVENT with DTSTART and DTEND both set.  An event of the feed without
    DTEND (and without DURATION) comes with its DTSTART as DTEND, a date next
    to a datetime comes as a datetime, a pair with the end before the start
    comes swapped, and an event without DTSTART makes the expansion raise
    [KeyError], which [feeds] has as a failed fetch. *)
Definition expanded (c : Component) : Prop :=
  name c = "VEVENT" /\
  exists dtstart dtend,
    DTSTART c = Some dtstart /\ DTEND c = Some dtend /\
    in_order dtstart dtend.

(** ** WindowFilter: [within_range] *)

Definition within_range (ev : Event) (start end_ : datetime) : bool :=
  negb (dt_leb (ev_end ev) start || dt_geb (ev_start ev) end_).

(** ** Deduplicator: [dedupe_and_sort] *)

(** The tuple [(title, start, end, calendar_name)] as the set sees it:
    aware datetimes are equal, and hash alike, exactly when they are the
    same instant, so a datetime stands in the key as its instant. *)
Definition key : Type := string * Z * Z * string.

Definition key_of (ev : Event) : key :=
  (ev_title ev, instant (ev_start ev), instant (ev_end ev),
   ev_calendar_name ev).

(** The [for] loop, with [keyset] and [out] as they stand. *)
Fixpoint dedupe_loop (events : list Event) (keyset : gset key)
    (out : list Event) : list Event :=
  match events with
  | [] => out
  | ev :: rest =>
      let k := key_of ev in
      if decide (k ∈ keyset) then dedupe_loop rest keyset out
      else dedupe_loop rest ({[k]} ∪ keyset) (out ++ [ev])
  end.

(** [(a.start, a.title) < (b.start, b.title)]: tuples compare on the first
    component where they differ; strings compare by code point, which is
    the order of their UTF-8 bytes. *)
Definition sort_key_ltb (a b : Event) : bool :=
  if dt_eqb (ev_start a) (ev_start b)
  then String.ltb (ev_title a) (ev_title b)
  else dt_ltb (ev_start a) (ev_start b).

(** [list.sort] is stable: an element goes after those it is not smaller
    than. *)
Fixpoint insert_sorted (x : Event) (l : list Event) : list Event :=
  match l with
  | [] => [x]
  | y :: l' => if sort_key_ltb x y then x :: l else y :: insert_sorted x l'
  end.

Definition sort_events (l : list Event) : list Event :=
  fold_left (fun acc x => insert_sorted x acc) l [].

Definition dedupe_and_sort (events : list Event) : list Event :=
  sort_events (dedupe_loop events ∅ []).

(** The events the loop of [dedupe_and_sort] leaves in [out]. *)
Definition first_occurrences (events : list Event) : list Event :=
  dedupe_loop events ∅ [].

(** [(a.start, a.title) <= (b.start, b.title)] *)
Definition start_title_le (a b : Event) : Prop :=
  instant (ev_start a) < instant (ev_start b) \/
  (instant (ev_start a) = instant (ev_start b) /\
   String.leb (ev_title a) (ev_title b) = true).

(** ** DayGrouper: [group_by_day] *)

(** The dictionary appended to a day's list. *)
Record Item := mkItem {
  item_title : string;
  item_start_str : string;
  item_end_str : string;
  item_is_all_day : bool;
  item_location : string;
  item_calendar_name : string
}.

Definition make_item (ev : Event) : Item :=
  {| item_title := ev_title ev;
     item_start_str := strftime_HM (local (ev_start ev));
     item_end_str := strftime_HM (local (ev_end ev));
     item_is_all_day := ev_is_all_day ev;
     item_location := ev_location ev;
     item_calendar_name := ev_calendar_name ev |}.

Definition day_label (ev : Event) : string :=
  strftime_A_dmY (local (ev_start ev)).

(** [grouped[day_label].append(item)] on a [defaultdict(list)]: a dictionary
    keeps its keys in the order they were first inserted. *)
Fixpoint grouped_append (grouped : list (string * list Item))
    (label : string) (item : Item) : list (string * list Item) :=
  match grouped with
  | [] => [(label, [item])]
  | (k, items) :: rest =>
      if String.eqb k label then (k, items ++ [item]) :: rest
      else (k, items) :: grouped_append rest label item
  end.

(** One turn of the loop of [group_by_day]. *)
Definition group_step (grouped : list (string * list Item)) (ev : Event)
  : list (string * list Item) :=
  grouped_append grouped (day_label ev) (make_item ev).

Definition group_by_day (events : list Event) (tz : tzinfo)
  : list (string * list Item) :=
  fold_left group_step events [].

(** Whether an event is filed under the day label [k], or under another. *)
Definition on_day (k : string) (ev : Event) : bool :=
  String.eqb k (day_label ev).

Definition off_day (k : string) (ev : Event) : bool := negb (on_day k ev).

(** Events with the same day label stand next to one another: between two
    events of one day there are only events of that day. *)
Definition same_day_adjacent (events : list Event) : Prop :=
  forall l1 a l2 b l3,
    events = l1 ++ a :: l2 ++ b :: l3 ->
    day_label a = day_label b ->
    Forall (fun c => day_label c = day_label a) l2.

(** The time cell of the HTML template:
    [{% if not ev.is_all_day %}{{ ev.start_str }}–{{ ev.end_str }}{% else %}—{% endif %}] *)
Definition template_time (item : Item) : string :=
  if negb (item_is_all_day item)
  then item_start_str item +:+ "–" +:+ item_end_str item
  else "—".

(** ** The feed loop of [main] *)

(** An entry of [cfg["calendars"]] that has a name.  (An entry without
    ["name"] raises [KeyError] at [name = cal["name"]], before the [try],
    and ends the run.) *)
Record calendar_cfg := mkCal {
  cal_name : string;
  cal_ics_url : option string
}.

(** The list [events] and what was printed to [stderr]. *)
Record loop_state := mkLoop {
  events_of : list Event;
  stderr_of : list string
}.

(** One turn of [for cal in cfg.get("calendars", [])]. *)
Definition feed_step (web : feeds) (tz : tzinfo) (start end_ : datetime)
    (st : loop_state) (cal : calendar_cfg) : loop_state :=
  let name := cal_name cal in
  match cal_ics_url cal with
  | None =>
      {| events_of := events_of st;
         stderr_of := stderr_of st ++
                      ["Skipping " +:+ name +:+ ": missing ics_url"] |}
  | Some url =>
      match parse_ics web url tz name with
      | Ok evs =>
          let evs := List.filter (fun e => within_range e start end_) evs in
          {| events_of := events_of st ++ evs; stderr_of := stderr_of st |}
      | Raise e =>
          {| events_of := events_of st;
             stderr_of := stderr_of st ++
                          ["[WARN] Calendar '" +:+ name +:+ "' failed: " +:+ e] |}
      end
  end.

Definition feed_loop (web : feeds) (tz : tzinfo) (start end_ : datetime)
    (calendars : list calendar_cfg) : loop_state :=
  fold_left (feed_step web tz start end_) calendars
    {| events_of := []; stderr_of := [] |}.

(** What one configured calendar adds to [events]: its events inside the
    window, or nothing when it has no URL or [parse_ics] raises. *)
Definition contribution (web : feeds) (tz : tzinfo) (start end_ : datetime)
    (cal : calendar_cfg) : list Event :=
  match cal_ics_url cal with
  | None => []
  | Some url =>
      match parse_ics web url tz (cal_name cal) with
      | Ok evs => List.filter (fun e => within_range e start end_) evs
      | Raise _ => []
      end
  end.

(** [main] from the window to the grouped events handed to the template. *)
Definition pipeline (web : feeds) (mode : string) (tz : tzinfo)
    (now : datetime) (calendars : list calendar_cfg)
  : result (string * list (string * list Item) * list string) :=
  let* w := daterange_window mode tz now in
  let '(start, end_, title) := w in
  let st := feed_loop web tz start end_ calendars in
  let events := dedupe_and_sort (events_of st) in
  Ok (title, group_by_day events tz, stderr_of st).

(** ** Sample data *)

(** Wednesday 3 January 2024, 15:30:12.250000 at UTC+1. *)
Definition wednesday_afternoon : datetime :=
  {| local := mknaive (ymd2ord 2024 1 3) 15 30 12 250000; utcoffset := 3600 |}.

(** 4 January 2024 at a given time of day, in UTC. *)
Definition jan4_utc (h m : Z) : datetime :=
  {| local := mknaive (ymd2ord 2024 1 4) h m 0 0; utcoffset := 0 |}.

(** A timed occurrence and an all-day occurrence without DTEND. *)
Definition standup_no_end : Component :=
  {| name := "VEVENT"; SUMMARY := Some "Standup"; LOCATION := Some "Room 2";
     DTSTART := Some (Floating (mknaive (ymd2ord 2024 1 4) 9 0 0 0));
     DTEND := None |}.

Definition holiday_no_end : Component :=
  {| name := "VEVENT"; SUMMARY := None; LOCATION := None;
     DTSTART := Some (DateOnly (ymd2ord 2024 1 4));
     DTEND := None |}.



(** Europe/Prague in the first months of 2024, as pytz has it.  The zone
    object itself, attached with [tzinfo=tz], reports the zone's first
    entry, local mean time, +0:58.  The clock is at +1:00 (CET) until
    31 March, 01:00 UTC, and at +2:00 (CEST) from then on; [localize]
    reads a wall-clock time of the skipped hour, 02:00 to 03:00, as CET. *)
Definition prague_2024 : tzinfo :=
  {| tz_zone_utcoffset := 3480;
     tz_localize_utcoffset := fun n =>
       if timestamp n <? timestamp (mknaive (ymd2ord 2024 3 31) 3 0 0 0)
       then 3600 else 7200;
     tz_utcoffset_at := fun utc =>
       if utc <? timestamp (mknaive (ymd2ord 2024 3 31) 1 0 0 0)
       then 3600 else 7200 |}.

(** A call given in floating time in the night of the clock change, from
    02:30 to 03:00 on 31 March 2024. *)
Definition gap_occurrence : Component :=
  {| name := "VEVENT"; SUMMARY := Some "Call"; LOCATION := None;
     DTSTART := Some (Floating (mknaive (ymd2ord 2024 3 31) 2 30 0 0));
     DTEND := Some (Floating (mknaive (ymd2ord 2024 3 31) 3 0 0 0)) |}.

(** Two events of Thursday 4 and Friday 5 January 2024 on the clock of
    Prague: the first minute of Thursday, and Friday all day. *)
Definition first_minute : Event :=
  {| ev_title := "Backup";
     ev_start := {| local := mknaive (ymd2ord 2024 1 4) 0 0 0 0;
                    utcoffset := 3600 |};
     ev_end := {| local := mknaive (ymd2ord 2024 1 4) 0 1 0 0;
                  utcoffset := 3600 |};
     ev_is_all_day := false; ev_location := ""; ev_calendar_name := "Ops" |}.

Definition friday_all_day : Event :=
  {| ev_title := "Fair";
     ev_start := {| local := combine_min (ymd2ord 2024 1 5);
                    utcoffset := 3600 |};
     ev_end := {| local := combine_min (ymd2ord 2024 1 6);
                  utcoffset := 3600 |};
     ev_is_all_day := true; ev_location := ""; ev_calendar_name := "Ops" |}.

(** The day of 4 January 2024 in UTC as a window, an event of no duration at
    the end of the window and a meeting that runs past it. *)
Definition jan4_start : datetime := jan4_utc 0 0.

Definition jan4_end : datetime :=
  {| local := mknaive (ymd2ord 2024 1 4) 23 59 59 0; utcoffset := 0 |}.

Definition reminder_at_end : Event :=
  {| ev_title := "Reminder"; ev_start := jan4_end; ev_end := jan4_end;
     ev_is_all_day := false; ev_location := ""; ev_calendar_name := "Work" |}.

Definition late_meeting : Event :=
  {| ev_title := "Release"; ev_start := jan4_utc 23 0;
     ev_end := dt_add (jan4_utc 23 0) 0 7200;
     ev_is_all_day := false; ev_location := ""; ev_calendar_name := "Work" |}.

(** The same stand-up announced by two calendars, and a later review. *)
Definition standup (calendar_name : string) : Event :=
  {| ev_title := "Standup"; ev_start := jan4_utc 9 0; ev_end := jan4_utc 9 30;
     ev_is_all_day := false; ev_location := "";
     ev_calendar_name := calendar_name |}.

Definition review : Event :=
  {| ev_title := "Review"; ev_start := jan4_utc 14 0; ev_end := jan4_utc 15 0;
     ev_is_all_day := false; ev_location := "Room 2";
     ev_calendar_name := "A" |}.

(** America/St_Johns in the night from 6 to 7 November 2010: daylight time
    (UTC-2:30) until the clocks, at 00:01 on the 7th (02:31 UTC), go back to
    23:01 on the 6th, standard time (UTC-3:30).  [localize] takes a reading
    that occurs twice as standard time. *)
Definition st_johns_2010 : tzinfo :=
  {| tz_zone_utcoffset := -12652;
     tz_localize_utcoffset := fun n =>
       if timestamp n <? timestamp (mknaive (ymd2ord 2010 11 6) 23 1 0 0)
       then -9000 else -12600;
     tz_utcoffset_at := fun utc =>
       if utc <? timestamp (mknaive (ymd2ord 2010 11 7) 2 31 0 0)
       then -9000 else -12600 |}.

(** Three occurrences of that night, given in UTC. *)
Definition night_occurrence (summary : string) (h m s : Z) : Component :=
  {| name := "VEVENT"; SUMMARY := Some summary; LOCATION := None;
     DTSTART := Some (Zoned {| local := mknaive (ymd2ord 2010 11 7) h m s 0;
                               utcoffset := 0 |});
     DTEND := None |}.

Definition night_feed : list Component :=
  [night_occurrence "Backup" 0 30 0;
   night_occurrence "Deploy" 2 30 30;
   night_occurrence "Check" 3 0 0].

(** The events the pipeline makes of them in that zone. *)
Definition night_events : list Event :=
  match parse_components st_johns_2010 "Ops" night_feed [] with
  | Ok evs => dedupe_and_sort evs
  | Raise _ => []
  end.

(** The all-day event made of [holiday_no_end] in UTC. *)
Definition holiday : Event :=
  {| ev_title := "(Bez názvu)";
     ev_start := {| local := combine_min (ymd2ord 2024 1 4); utcoffset := 0 |};
     ev_end := {| local := combine_min (ymd2ord 2024 1 5); utcoffset := 0 |};
     ev_is_all_day := true; ev_location := ""; ev_calendar_name := "Home" |}.

(** Two feeds: the first answers, the second is down. *)
Definition sample_web : feeds := fun url =>
  if String.eqb url "https://example.org/a.ics"
  then Ok [standup_no_end; holiday_no_end]
  else Raise "503 Server Error: Service Unavailable".

Definition calendar_a : calendar_cfg :=
  {| cal_name := "A"; cal_ics_url := Some "https://example.org/a.ics" |}.

Definition calendar_b : calendar_cfg :=
  {| cal_name := "B"; cal_ics_url := Some "https://example.org/b.ics" |}.

(** A report due on the next day. *)
Definition monthly_report : Event :=
  {| ev_title := "Report";
     ev_start := {| local := mknaive (ymd2ord 2024 1 5) 8 0 0 0;
                    utcoffset := 0 |};
     ev_end := {| local := mknaive (ymd2ord 2024 1 5) 9 0 0 0;
                  utcoffset := 0 |};
     ev_is_all_day := false; ev_location := ""; ev_calendar_name := "A" |}.

(** Whether [parse_ics] makes an event of a component. *)
Definition is_vevent (c : Component) : bool := String.eqb (name c) "VEVENT".

(** A stand-up with an empty summary, at a floating 09:00. *)
Definition untitled_floating : Component :=
  {| name := "VEVENT"; SUMMARY := Some ""; LOCATION := Some "Room 2";
     DTSTART := Some (Floating (mknaive (ymd2ord 2024 1 4) 9 0 0 0));
     DTEND := None |}.

(** A calendar with a time-zone definition, a to-do and two events. *)
Definition mixed_feed : list Component :=
  [ {| name := "VTIMEZONE"; SUMMARY := None; LOCATION := None;
       DTSTART := None; DTEND := None |};
    standup_no_end;
    {| name := "VTODO"; SUMMARY := Some "Buy milk"; LOCATION := None;
       DTSTART := None; DTEND := None |};
    holiday_no_end ].

(** [(a.start, a.title) == (b.start, b.title)]: the two events tie in the
    sort of [dedupe_and_sort]. *)
Definition same_sort_key (a b : Event) : bool :=
  dt_eqb (ev_start a) (ev_start b) && String.eqb (ev_title a) (ev_title b).

(** What one configured calendar leaves on [stderr]: a line when it has no
    URL, a warning when [parse_ics] raises, nothing otherwise. *)
Definition complaint (web : feeds) (tz : tzinfo) (cal : calendar_cfg)
  : list string :=
  match cal_ics_url cal with
  | None => ["Skipping " +:+ cal_name cal +:+ ": missing ics_url"]
  | Some url =>
      match parse_ics web url tz (cal_name cal) with
      | Ok _ => []
      | Raise e =>
          ["[WARN] Calendar '" +:+ cal_name cal +:+ "' failed: " +:+ e]
      end
  end.

(** A calendar entry without [ics_url]. *)
Definition calendar_draft : calendar_cfg :=
  {| cal_name := "Draft"; cal_ics_url := None |}.

(** Wednesday 3 January 2024, 15:30:12 in UTC. *)
Definition wednesday_utc : datetime :=
  {| local := mknaive (ymd2ord 2024 1 3) 15 30 12 0; utcoffset := 0 |}.

(** The stand-up of calendar A as [parse_ics] makes it in UTC, and the two
    items of that calendar's feed. *)
Definition parsed_standup : Event :=
  {| ev_title := "Standup"; ev_start := jan4_utc 9 0; ev_end := jan4_utc 10 0;
     ev_is_all_day := false; ev_location := "Room 2";
     ev_calendar_name := "A" |}.

Definition standup_item : Item :=
  {| item_title := "Standup"; item_start_str := "09:00";
     item_end_str := "10:00"; item_is_all_day := false;
     item_location := "Room 2"; item_calendar_name := "A" |}.

Definition holiday_item : Item :=
  {| item_title := "(Bez názvu)"; item_start_str := "00:00";
     item_end_str := "00:00"; item_is_all_day := true;
     item_location := ""; item_calendar_name := "A" |}.

(** ** Slack text: [html_to_text] *)

(** The text handed to [re] is a Python [str], a sequence of code points;
    a code point is its number. *)
Definition text : Type := list Z.

(** The code point of an ASCII character, and an ASCII literal as a [str]. *)
Definition code (a : ascii) : Z := Z.of_N (N_of_ascii a).

Definition str (s : string) : text := map code (list_ascii_of_string s).

Definition newline : Z := 10.

(** [str.isspace] of one character, which is also the class [\s] of [re]
    on [str] patterns. *)
Definition isspace (x : Z) : bool :=
  ((9 <=? x) && (x <=? 13)) || ((28 <=? x) && (x <=? 32)) ||
  (x =? 133) || (x =? 160) || (x =? 5760) ||
  ((8192 <=? x) && (x <=? 8202)) || (x =? 8232) || (x =? 8233) ||
  (x =? 8239) || (x =? 8287) || (x =? 12288).

(** Character classes: a literal, a lower-case ASCII letter under [re.I],
    and the complement of a literal ([[^>]]). *)
Definition lit (a : ascii) (x : Z) : bool := x =? code a.

Definition lit_i (a : ascii) (x : Z) : bool :=
  (x =? code a) || (x =? code a - 32).

Definition non (a : ascii) (x : Z) : bool := negb (x =? code a).

(** The regular expressions of [html_to_text] are sequences of single
    characters, optional characters and greedy repetitions of a class. *)
Inductive token : Type :=
| One (c : Z -> bool)                  (** [c] *)
| Opt (c : Z -> bool)                  (** [c?] *)
| Many (least : nat) (c : Z -> bool).  (** [c*], [c+], [c{least,}] *)

Definition regex : Type := list token.

(** The length of the longest run of characters of a class at the head of
    a text. *)
Fixpoint run (c : Z -> bool) (s : text) : nat :=
  match s with
  | x :: s' => if c x then S (run c s') else O
  | [] => O
  end.

(** A greedy repetition: the rest of the pattern, [k], is tried after [n]
    characters of the run, then after fewer, down to [least]. *)
Fixpoint backtrack (k : text -> option text) (least n : nat) (s : text)
  : option text :=
  if (n <? least)%nat then None
  else
    match k (skipn n s) with
    | Some rest => Some rest
    | None =>
        match n with
        | O => None
        | S n' => backtrack k least n' s
        end
    end.

(** The match of a pattern at the head of a text, as the backtracking
    matcher of [re] finds it: [Some rest] with the text after the match. *)
Fixpoint match_at (p : regex) (s : text) : option text :=
  match p with
  | [] => Some s
  | One c :: p' =>
      match s with
      | x :: s' => if c x then match_at p' s' else None
      | [] => None
      end
  | Opt c :: p' =>
      match s with
      | x :: s' =>
          if c x then
            match match_at p' s' with
            | Some rest => Some rest
            | None => match_at p' s
            end
          else match_at p' s
      | [] => match_at p' s
      end
  | Many least c :: p' => backtrack (match_at p') least (run c s) s
  end.

(** [re.sub(p, repl, s)] from left to right: [skip] counts the characters
    of a match still to be passed over.  The patterns of this program match
    no empty string (see [patterns_consume]), so the rules of [re.sub] for
    empty matches are not needed. *)
Fixpoint sub_from (p : regex) (repl : text) (s : text) (skip : nat) : text :=
  match s with
  | [] => []
  | x :: s' =>
      match skip with
      | S skip' => sub_from p repl s' skip'
      | O =>
          match match_at p s with
          | Some rest =>
              repl ++ sub_from p repl s' (length s' - length rest)
          | None => x :: sub_from p repl s' 0
          end
      end
  end.

Definition re_sub (p : regex) (repl : text) (s : text) : text :=
  sub_from p repl s 0.

(** [s.lstrip()], [s.rstrip()] and [s.strip()] *)
Fixpoint lstrip (s : text) : text :=
  match s with
  | x :: s' => if isspace x then lstrip s' else s
  | [] => []
  end.

Definition rstrip (s : text) : text := rev (lstrip (rev s)).

Definition strip (s : text) : text := rstrip (lstrip s).

(** [<br\s*/?>] with [re.I], [</p>] with [re.I], [<[^>]+>] and [\n{3,}] *)
Definition BR : regex :=
  [One (lit "<"); One (lit_i "b"); One (lit_i "r"); Many 0 isspace;
   Opt (lit "/"); One (lit ">")].

Definition END_P : regex :=
  [One (lit "<"); One (lit "/"); One (lit_i "p"); One (lit ">")].

Definition TAG : regex := [One (lit "<"); Many 1 (non ">"); One (lit ">")].

Definition NEWLINES : regex := [Many 3 (lit "010")].

Definition html_to_text (html : text) : text :=
  let text := re_sub BR [newline] html in
  let text := re_sub END_P [newline; newline] text in
  let text := re_sub TAG [] text in
  strip (re_sub NEWLINES [newline; newline] text).

(** The message of [send_slack_webhook],
    [f"*{subject}*\n{text[:38000]}"], and that of [send_slack_bot],
    [f"*{subject}*\n" + html_to_text(html_body)]. *)
Definition webhook_text (subject html_body : text) : text :=
  let text := html_to_text html_body in
  str "*" ++ subject ++ str "*" ++ [newline] ++ firstn (Z.to_nat 38000) text.

Definition bot_text (subject html_body : text) : text :=
  (str "*" ++ subject ++ str "*" ++ [newline]) ++ html_to_text html_body.

(** A pattern whose every match takes at least one character. *)
Definition consumes (p : regex) : Prop :=
  forall s rest, match_at p s = Some rest -> (length rest < length s)%nat.

(** No tag is left in a text: each "<" is followed at once by ">", or by no
    ">" at all. *)
Definition settled (o : text) : Prop :=
  forall pre t, o = pre ++ code "<" :: t ->
    (exists t', t = code ">" :: t') \/ ~ In (code ">") t.

(** No three newlines in a row, from any place of a text on. *)
Definition calm (o : text) : Prop :=
  forall i, (run (lit "010") (skipn i o) < 3)%nat.

(** The least number of characters a match of a pattern takes. *)
Fixpoint least_length (p : regex) : nat :=
  match p with
  | [] => O
  | One _ :: p' => S (least_length p')
  | Opt _ :: p' => least_length p'
  | Many least _ :: p' => (least + least_length p')%nat
  end.

(** ** Delivery: the end of [main] *)

(** A value of the configuration, as [yaml.safe_load] returns it. *)
#[warnings="-register-all"]
Inductive yaml : Type :=
| YNone
| YBool (b : bool)
| YInt (n : Z)
| YStr (s : string)
| YList (l : list yaml)
| YDict (d : list (string * yaml)).

(** A mapping of the configuration. *)
Definition dict : Type := list (string * yaml).

(** [d.get(k)] and [k in d]. *)
Fixpoint get (d : dict) (k : string) : option yaml :=
  match d with
  | [] => None
  | (k', v) :: d' => if String.eqb k' k then Some v else get d' k
  end.

Definition get_or_none (d : dict) (k : string) : yaml :=
  match get d k with
  | Some v => v
  | None => YNone
  end.

(** The truth value of a configuration value ([if v], [not v]). *)
Definition truthy (v : yaml) : bool :=
  match v with
  | YNone => false
  | YBool b => b
  | YInt n => negb (n =? 0)
  | YStr s => negb (String.eqb s "")
  | YList l => match l with [] => false | _ => true end
  | YDict d => match d with [] => false | _ => true end
  end.

(** [type(v).__name__] *)
Definition type_name (v : yaml) : string :=
  match v with
  | YNone => "NoneType"
  | YBool _ => "bool"
  | YInt _ => "int"
  | YStr _ => "str"
  | YList _ => "list"
  | YDict _ => "dict"
  end.

(** [v.get(k)]: a mapping answers; any other value has no [get] and the call
    raises [AttributeError]. *)
Definition attr_get (v : yaml) (k : string) : result yaml :=
  match v with
  | YDict d => Ok (get_or_none d k)
  | _ => Raise ("'" +:+ type_name v +:+ "' object has no attribute 'get'")
  end.

(** The configuration of a run, a mapping ([main] has called [cfg.get] on
    it before the window is computed): the values of [dry_run], [slack] and
    [slack_bot] as they were loaded, where a key is present (a key without
    a value is loaded as [None]), and the section [smtp], a mapping when it
    is present. *)
Record config := mkConfig {
  cfg_dry_run : option yaml;
  cfg_smtp : option dict;
  cfg_slack : option yaml;
  cfg_slack_bot : option yaml
}.

(** [cfg.get(key, {})] *)
Definition section (loaded : option yaml) : yaml :=
  match loaded with
  | Some v => v
  | None => YDict []
  end.

(** What a run does to the world.  [SendMail] stands for the SMTP session
    of [send_email] (from building the message to [sendmail]), [PostWebhook]
    and [PostBot] for [requests.post] followed by [raise_for_status]. *)
Inductive action : Type :=
| WriteFile (path : string) (content : text)
| Stdout (line : string)
| Stderr (line : string)
| SendMail (sender : yaml) (to_list : list yaml) (smtp : dict)
    (subject html_body : text)
| PostWebhook (url : yaml) (message : text)
| PostBot (token channel : yaml) (message : text).

(** How the world answers: an action returns or raises. *)
Definition outcomes : Type := action -> result unit.

(** A piece of the program: the actions it performed, in order, and how it
    ended. *)
Definition run_of (A : Type) : Type := list action * result A.

Definition and_then {A B : Type} (r : run_of A) (k : A -> run_of B)
  : run_of B :=
  match snd r with
  | Ok a => (fst r ++ fst (k a), snd (k a))
  | Raise msg => (fst r, Raise msg)
  end.

Definition perform (out : outcomes) (a : action) : run_of unit :=
  ([a], out a).

(** [print] *)
Definition say (a : action) : run_of unit := ([a], Ok tt).

Definition send_slack_webhook (out : outcomes) (cfg : config)
    (subject html_body : text) : run_of unit :=
  let slack := section (cfg_slack cfg) in
  match attr_get slack "enabled" with
  | Raise msg => ([], Raise msg)
  | Ok enabled =>
      if negb (truthy enabled) then ([], Ok tt)
      else
        match attr_get slack "webhook_url" with
        | Raise msg => ([], Raise msg)
        | Ok url =>
            if negb (truthy url) then
              say (Stderr
                     "[WARN] Slack webhook enabled but webhook_url missing.")
            else
              perform out (PostWebhook url (webhook_text subject html_body))
        end
  end.

Definition send_slack_bot (out : outcomes) (cfg : config)
    (subject html_body : text) : run_of unit :=
  let bot := section (cfg_slack_bot cfg) in
  match attr_get bot "enabled" with
  | Raise msg => ([], Raise msg)
  | Ok enabled =>
      if negb (truthy enabled) then ([], Ok tt)
      else
        match attr_get bot "token", attr_get bot "channel_id" with
        | Ok token, Ok channel =>
            if negb (truthy token) || negb (truthy channel) then
              say (Stderr
                     "[WARN] Slack bot enabled but token/channel_id missing.")
            else
              perform out
                (PostBot token channel (bot_text subject html_body))
        | Raise msg, _ => ([], Raise msg)
        | _, Raise msg => ([], Raise msg)
        end
  end.

(** [send_email]: a missing section or key raises [KeyError] before any
    connection is made. *)
Definition send_email (out : outcomes) (cfg : config)
    (subject html_body : text) : run_of unit :=
  match cfg_smtp cfg with
  | None => ([], Raise "'smtp'")
  | Some smtp =>
      match get smtp "from" with
      | None => ([], Raise "'from'")
      | Some sender =>
          match get smtp "to" with
          | None => ([], Raise "'to'")
          | Some to =>
              let to_list := match to with YList l => l | _ => [to] end in
              perform out (SendMail sender to_list smtp subject html_body)
          end
      end
  end.

(** [cfg.get("dry_run", False)] *)
Definition dry_run_of (cfg : config) : yaml :=
  match cfg_dry_run cfg with
  | Some v => v
  | None => YBool false
  end.

(** [main] from [if cfg.get("dry_run", False)] on, with the rendered page
    [html] and the title as the subject. *)
Definition deliver (out : outcomes) (cfg : config) (mode : string)
    (title html : text) : run_of unit :=
  if truthy (dry_run_of cfg) then
    let path := "output_" +:+ mode +:+ ".html" in
    and_then (perform out (WriteFile path html)) (fun _ =>
    say (Stdout ("[DRY RUN] Wrote " +:+ path)))
  else
    and_then (send_email out cfg title html) (fun _ =>
    and_then (send_slack_webhook out cfg title html) (fun _ =>
    and_then (send_slack_bot out cfg title html) (fun _ =>
    say (Stdout "Notifications sent.")))).

(** Actions that reach a recipient. *)
Definition is_mail (a : action) : bool :=
  match a with SendMail _ _ _ _ _ => true | _ => false end.

Definition is_slack (a : action) : bool :=
  match a with PostWebhook _ _ | PostBot _ _ _ => true | _ => false end.

(** A configuration with mail and both Slack channels, and one that only
    tries things out. *)
Definition full_config : config :=
  {| cfg_dry_run := None;
     cfg_smtp := Some [("from", YStr "bot@example.org");
                       ("to", YStr "team@example.org")];
     cfg_slack :=
       Some (YDict [("enabled", YBool true);
                    ("webhook_url", YStr "https://hooks.example.org/x")]);
     cfg_slack_bot :=
       Some (YDict [("enabled", YBool true); ("token", YStr "t")]) |}.

(** The same with [slack:] left without a value. *)
Definition null_slack_config : config :=
  {| cfg_dry_run := None;
     cfg_smtp := Some [("from", YStr "bot@example.org");
                       ("to", YStr "team@example.org")];
     cfg_slack := Some YNone;
     cfg_slack_bot :=
       Some (YDict [("enabled", YBool true); ("token", YStr "t");
                    ("channel_id", YStr "C1")]) |}.

Definition trial_config : config :=
  {| cfg_dry_run := Some (YBool true); cfg_smtp := None;
     cfg_slack := None; cfg_slack_bot := None |}.

(** A world in which the mail server refuses and everything else works. *)
Definition mail_down : outcomes := fun a =>
  if is_mail a then Raise "Connection refused" else Ok tt.

(** * Properties *)

(** ** Field arithmetic *)

Lemma timestamp_of_timestamp s us : timestamp (of_timestamp s us) = s.
Proof.
  unfold timestamp, of_timestamp; simpl.
  pose proof (Z.div_mod s 86400 ltac:(lia)).
  pose proof (Z.div_mod (s mod 86400) 3600 ltac:(lia)).
  pose proof (Z.div_mod (s mod 3600) 60 ltac:(lia)).
  assert (E1 : (s mod 86400) mod 3600 = s mod 3600)
    by (apply Z.mod_mod_divide; exists 24; lia).
  assert (E2 : (s mod 3600) mod 60 = s mod 60)
    by (apply Z.mod_mod_divide; exists 60; lia).
  lia.
Qed.

Lemma of_timestamp_valid s us :
  0 <= us < 1000000 -> valid_naive (of_timestamp s us).
Proof.
  intros Hus. unfold valid_naive, of_timestamp; simpl.
  pose proof (Z.mod_pos_bound s 86400 ltac:(lia)).
  pose proof (Z.mod_pos_bound s 3600 ltac:(lia)).
  pose proof (Z.mod_pos_bound s 60 ltac:(lia)).
  repeat split; try lia.
  - apply Z.div_pos; lia.
  - apply Z.div_lt_upper_bound; lia.
  - apply Z.div_pos; lia.
  - apply Z.div_lt_upper_bound; lia.
Qed.

Lemma of_timestamp_timestamp n :
  valid_naive n -> of_timestamp (timestamp n) (nd_microsecond n) = n.
Proof.
  intros (Hh & Hm & Hs & _). destruct n as [d h m s us]; simpl in *.
  unfold of_timestamp, timestamp; simpl.
  assert (Ed : (d * 86400 + h * 3600 + m * 60 + s) / 86400 = d).
  { symmetry. apply (Z.div_unique _ _ _ (h * 3600 + m * 60 + s)); lia. }
  assert (Eh : (d * 86400 + h * 3600 + m * 60 + s) mod 86400
               = h * 3600 + m * 60 + s).
  { symmetry. apply (Z.mod_unique _ _ d); lia. }
  assert (Em : (d * 86400 + h * 3600 + m * 60 + s) mod 3600 = m * 60 + s).
  { symmetry. apply (Z.mod_unique _ _ (d * 24 + h)); lia. }
  assert (Es : (d * 86400 + h * 3600 + m * 60 + s) mod 60 = s).
  { symmetry. apply (Z.mod_unique _ _ (d * 1440 + h * 60 + m)); lia. }
  rewrite Ed, Eh, Em, Es. f_equal.
  - symmetry. apply (Z.div_unique _ _ _ (m * 60 + s)); lia.
  - symmetry. apply (Z.div_unique _ _ _ s); lia.
Qed.

(** Adding whole days to a valid reading moves the date only. *)
Lemma add_timedelta_days n k :
  valid_naive n ->
  add_timedelta n k 0 =
  {| nd_date := nd_date n + k; nd_hour := nd_hour n; nd_minute := nd_minute n;
     nd_second := nd_second n; nd_microsecond := nd_microsecond n |}.
Proof.
  intros Hv. unfold add_timedelta.
  set (n' := {| nd_date := nd_date n + k; nd_hour := nd_hour n;
                nd_minute := nd_minute n; nd_second := nd_second n;
                nd_microsecond := nd_microsecond n |}).
  replace (timestamp n + k * 86400 + 0) with (timestamp n')
    by (unfold timestamp; simpl; lia).
  change (nd_microsecond n) with (nd_microsecond n').
  apply of_timestamp_timestamp. exact Hv.
Qed.

Lemma instant_dt_add a days seconds :
  instant (dt_add a days seconds) = instant a + (days * 86400 + seconds) * 1000000.
Proof.
  unfold instant, dt_add, add_timedelta; simpl.
  rewrite timestamp_of_timestamp. simpl. lia.
Qed.

Lemma instant_astimezone tz a : instant (astimezone tz a) = instant a.
Proof.
  unfold instant, astimezone; simpl.
  rewrite timestamp_of_timestamp. lia.
Qed.

(** ** The window calculator on examples *)

Example ymd2ord_2024_01_03 : ymd2ord 2024 1 3 = 738888.
Proof. reflexivity. Qed.

Example ord2ymd_2024_02_29 : ord2ymd (ymd2ord 2024 2 29) = (2024, 2, 29).
Proof. reflexivity. Qed.

Example daily_on_a_wednesday :
  daterange_window "daily" (fixed_zone 3600) wednesday_afternoon =
  Ok ({| local := mknaive (ymd2ord 2024 1 4) 0 0 0 0; utcoffset := 3600 |},
      {| local := mknaive (ymd2ord 2024 1 4) 23 59 59 0; utcoffset := 3600 |},
      "Zítřejší plán – Thursday 04.01.2024").
Proof. vm_compute. reflexivity. Qed.

Example weekly_on_a_wednesday :
  daterange_window "weekly" (fixed_zone 3600) wednesday_afternoon =
  Ok ({| local := mknaive (ymd2ord 2024 1 8) 0 0 0 0; utcoffset := 3600 |},
      {| local := mknaive (ymd2ord 2024 1 14) 23 59 59 0; utcoffset := 3600 |},
      "Týdenní plán – 08.01.–14.01.2024").
Proof. vm_compute. reflexivity. Qed.

Example bad_mode :
  daterange_window "monthly" UTC wednesday_afternoon =
  Raise "mode must be 'daily' or 'weekly'".
Proof. reflexivity. Qed.

(** ** WindowCalculator *)

(** The fields of the daily window: 00:00:00 and 23:59:59 of the date of
    [now + 1 day], with the offset the zone object itself reports. *)
Lemma daily_window_is_tomorrow (tz : tzinfo) (now : datetime) :
  valid_naive (local now) ->
  nd_date (local (dt_add now 1 0)) = nd_date (local now) + 1 /\
  exists title,
    daterange_window "daily" tz now =
    Ok ({| local := mknaive (nd_date (local now) + 1) 0 0 0 0;
           utcoffset := tz_zone_utcoffset tz |},
        {| local := mknaive (nd_date (local now) + 1) 23 59 59 0;
           utcoffset := tz_zone_utcoffset tz |},
        title).
Proof.
  intros Hv.
  assert (E : nd_date (local (dt_add now 1 0)) = nd_date (local now) + 1).
  { unfold dt_add. cbn [local].
    rewrite add_timedelta_days by exact Hv. reflexivity. }
  split; [exact E|].
  unfold daterange_window.
  change (String.eqb "daily" "daily") with true. cbv iota.
  rewrite E. eexists. reflexivity.
Qed.

(** C4. The bounds of the daily window are built with [tzinfo=tz], the zone
    object itself, where the events of [parse_ics] are localized: each bound
    is off the zone's clock by the difference between the offset [localize]
    gives its reading and the offset of the zone object.  For Europe/Prague
    (the default zone) that is two minutes: the window of Thursday 4 January
    2024 runs from 00:02:00 of Thursday to 00:01:59 of Friday on the zone's
    clock, an event in the first minute of Thursday is dropped and Friday's
    all-day event is kept. *)
Theorem daily_window_off_zone_clock :
  (forall tz now start end_ title,
     daterange_window "daily" tz now = Ok (start, end_, title) ->
     dt_sub start (localize tz (local start)) =
     (tz_localize_utcoffset tz (local start) - tz_zone_utcoffset tz)
     * 1000000 /\
     dt_sub end_ (localize tz (local end_)) =
     (tz_localize_utcoffset tz (local end_) - tz_zone_utcoffset tz)
     * 1000000) /\
  exists start end_,
    daterange_window "daily" prague_2024 wednesday_afternoon =
    Ok (start, end_, "Zítřejší plán – Thursday 04.01.2024") /\
    astimezone prague_2024 start =
    {| local := mknaive (ymd2ord 2024 1 4) 0 2 0 0; utcoffset := 3600 |} /\
    astimezone prague_2024 end_ =
    {| local := mknaive (ymd2ord 2024 1 5) 0 1 59 0; utcoffset := 3600 |} /\
    within_range first_minute start end_ = false /\
    within_range friday_all_day start end_ = true.
Proof.
  split.
  - intros tz now start end_ title. unfold daterange_window.
    change (String.eqb "daily" "daily") with true. cbv iota.
    intros H. injection H as <- <- _.
    unfold dt_sub, instant, localize. cbn [local utcoffset nd_microsecond].
    split; lia.
  - eexists. eexists. split; [reflexivity|].
    repeat split; vm_compute; reflexivity.
Qed.

Lemma weekday_of_date_range d : 0 <= weekday_of_date d < 7.
Proof. unfold weekday_of_date. apply Z.mod_pos_bound. lia. Qed.

Lemma weekday_of_date_shift d k :
  weekday_of_date (d + k) = (weekday_of_date d + k) mod 7.
Proof.
  unfold weekday_of_date.
  replace (d + k + 6) with ((d + 6) + k) by lia.
  rewrite Zplus_mod_idemp_l. reflexivity.
Qed.

(** C5. In weekly mode the window starts at 00:00:00 of a Monday: today when
    today is a Monday, otherwise the first Monday after today; it ends at
    23:59:59 of the Sunday six days later. *)
Theorem weekly_window_monday_to_sunday (tz : tzinfo) (now : datetime) :
  valid_naive (local now) ->
  exists monday title,
    daterange_window "weekly" tz now =
    Ok ({| local := mknaive monday 0 0 0 0; utcoffset := utcoffset now |},
        {| local := mknaive (monday + 6) 23 59 59 0;
           utcoffset := utcoffset now |},
        title) /\
    weekday_of_date monday = 0 /\
    weekday_of_date (monday + 6) = 6 /\
    (weekday (local now) = 0 -> monday = nd_date (local now)) /\
    (weekday (local now) <> 0 ->
       nd_date (local now) < monday /\
       forall d, nd_date (local now) < d < monday -> weekday_of_date d <> 0).
Proof.
  intros Hv.
  set (today := nd_date (local now)).
  set (k := (7 - weekday (local now)) mod 7).
  exists (today + k). eexists. split.
  - unfold daterange_window.
    change (String.eqb "weekly" "daily") with false.
    change (String.eqb "weekly" "weekly") with true. cbv iota.
    cbv zeta. fold k.
    assert (E1 : replace_time (local (dt_add now k 0)) 0 0 0 0
                 = mknaive (today + k) 0 0 0 0).
    { unfold dt_add. cbn [local].
      rewrite add_timedelta_days by exact Hv. reflexivity. }
    rewrite !E1.
    assert (E2 : replace_time
                   (local (dt_add {| local := mknaive (today + k) 0 0 0 0;
                                     utcoffset := utcoffset now |} 6 0))
                   23 59 59 0
                 = mknaive (today + k + 6) 23 59 59 0).
    { unfold dt_add. cbn [local].
      rewrite add_timedelta_days by (unfold valid_naive; simpl; lia).
      reflexivity. }
    rewrite !E2. reflexivity.
  - pose proof (weekday_of_date_range today) as Hw.
    assert (Ek : weekday (local now) = weekday_of_date today) by reflexivity.
    assert (Hk : k = if weekday_of_date today =? 0 then 0
                     else 7 - weekday_of_date today).
    { unfold k. rewrite Ek.
      destruct (Z.eqb_spec (weekday_of_date today) 0) as [E0|N0].
      - rewrite E0. reflexivity.
      - apply Z.mod_small. lia. }
    assert (Hm : weekday_of_date (today + k) = 0).
    { rewrite weekday_of_date_shift, Hk.
      destruct (Z.eqb_spec (weekday_of_date today) 0) as [E0|N0].
      - rewrite E0. reflexivity.
      - replace (weekday_of_date today + (7 - weekday_of_date today))
          with 7 by lia. reflexivity. }
    repeat split.
    + exact Hm.
    + rewrite weekday_of_date_shift, Hm. reflexivity.
    + intros E0. rewrite Ek in E0. rewrite Hk, E0. simpl. lia.
    + rewrite Ek in H. rewrite Hk.
      destruct (Z.eqb_spec (weekday_of_date today) 0); lia.
    + intros d Hd Hd0. rewrite Ek in H.
      assert (Ed : d = today + (d - today)) by lia.
      rewrite Ed, weekday_of_date_shift in Hd0.
      rewrite Hk in Hd.
      destruct (Z.eqb_spec (weekday_of_date today) 0) as [E0|N0]; [lia|].
      rewrite Z.mod_small in Hd0 by lia. lia.
Qed.

Lemma weekly_window_monday_to_sunday_witness :
  valid_naive (local wednesday_afternoon) /\
  exists monday title,
    daterange_window "weekly" UTC wednesday_afternoon =
    Ok ({| local := mknaive monday 0 0 0 0; utcoffset := 3600 |},
        {| local := mknaive (monday + 6) 23 59 59 0; utcoffset := 3600 |},
        title) /\
    weekday_of_date monday = 0.
Proof.
  assert (Hv : valid_naive (local wednesday_afternoon))
    by (unfold valid_naive; simpl; lia).
  split; [exact Hv|].
  destruct (weekly_window_monday_to_sunday UTC wednesday_afternoon Hv)
    as (monday & title & Hw & Hm & _).
  exists monday, title. split; [exact Hw | exact Hm].
Defined.

(** ** WindowFilter *)

(** C2. [within_range] keeps an event exactly when not
    ([ev.end <= start] or [ev.start >= end]); an event of no duration at
    exactly [start] or exactly [end] is dropped, and an event with
    [ev.start < end] and [ev.end > start] is kept. *)
Theorem within_range_half_open (ev : Event) (start end_ : datetime) :
  (within_range ev start end_ = true <->
   ~ (instant (ev_end ev) <= instant start \/
      instant (ev_start ev) >= instant end_)) /\
  (instant (ev_start ev) = instant (ev_end ev) ->
   instant (ev_start ev) = instant start \/
   instant (ev_start ev) = instant end_ ->
   within_range ev start end_ = false) /\
  (instant (ev_start ev) < instant end_ ->
   instant (ev_end ev) > instant start ->
   within_range ev start end_ = true).
Proof.
  unfold within_range, dt_leb, dt_geb.
  destruct (Z.leb_spec (instant (ev_end ev)) (instant start));
    destruct (Z.leb_spec (instant end_) (instant (ev_start ev)));
    simpl; repeat split; intros; try lia; try reflexivity; try discriminate.
Qed.

Lemma within_range_half_open_witness :
  within_range reminder_at_end jan4_start jan4_end = false /\
  within_range late_meeting jan4_start jan4_end = true.
Proof.
  destruct (within_range_half_open reminder_at_end jan4_start jan4_end)
    as (_ & Hzero & _).
  destruct (within_range_half_open late_meeting jan4_start jan4_end)
    as (_ & _ & Hover).
  split.
  - apply Hzero; [reflexivity | right; reflexivity].
  - apply Hover; vm_compute; reflexivity.
Defined.

(** ** EventNormalizer *)

Lemma parse_component_vevent tz calendar_name c dtstart :
  name c = "VEVENT" -> DTSTART c = Some dtstart ->
  parse_component tz calendar_name c =
  Ok (Some {| ev_title := str_or (safe_str (SUMMARY c)) "(Bez názvu)";
              ev_start := fst (fst (normalize_times tz dtstart (DTEND c)));
              ev_end := snd (fst (normalize_times tz dtstart (DTEND c)));
              ev_is_all_day := snd (normalize_times tz dtstart (DTEND c));
              ev_location := str_or (safe_str (LOCATION c)) "";
              ev_calendar_name := calendar_name |}).
Proof.
  intros Hn Hs. unfold parse_component. rewrite Hn, Hs.
  change (String.eqb "VEVENT" "VEVENT") with true. cbn [negb].
  destruct (normalize_times tz dtstart (DTEND c)) as [[s e] a].
  reflexivity.
Qed.

(** The defaults of the loop body.  They are for a component without
    DTEND, or with a date as DTSTART and a datetime as DTEND; the expansion
    hands over no such component (see [expanded]). *)
Lemma missing_end_defaults (tz : tzinfo) (calendar_name : string)
    (c : Component) (dtstart : temporal) :
  name c = "VEVENT" -> DTSTART c = Some dtstart -> DTEND c = None ->
  exists ev,
    parse_component tz calendar_name c = Ok (Some ev) /\
    ev_is_all_day ev = is_date_only dtstart /\
    (is_date_only dtstart = false ->
       dt_sub (ev_end ev) (ev_start ev) = 3600 * 1000000 /\
       dt_eqb (ev_end ev) (dt_add (ev_start ev) 0 3600) = true) /\
    (is_date_only dtstart = true ->
       dt_sub (ev_end ev) (ev_start ev) = 86400 * 1000000 /\
       ev_end ev = dt_add (ev_start ev) 1 0).
Proof.
  intros Hn Hs He.
  rewrite (parse_component_vevent tz calendar_name c dtstart Hn Hs), He.
  eexists. split; [reflexivity|]. cbn [ev_is_all_day ev_start ev_end].
  unfold dt_sub, dt_eqb.
  destruct dtstart as [d|n|a]; cbn [normalize_times is_date_only fst snd];
    repeat split; intros; try discriminate;
    rewrite ?instant_astimezone, ?instant_dt_add, ?instant_astimezone;
    try apply Z.eqb_eq; lia.
Qed.

Lemma allday_start_ignores_timed_end (tz : tzinfo) (calendar_name : string)
    (c : Component) (d : date) (e : temporal) :
  name c = "VEVENT" -> DTSTART c = Some (DateOnly d) ->
  DTEND c = Some e -> is_date_only e = false ->
  parse_component tz calendar_name c =
  parse_component tz calendar_name
    {| name := name c; SUMMARY := SUMMARY c; LOCATION := LOCATION c;
       DTSTART := DTSTART c; DTEND := None |} /\
  exists ev,
    parse_component tz calendar_name c = Ok (Some ev) /\
    ev_start ev = localize tz (combine_min d) /\
    ev_is_all_day ev = true /\
    dt_sub (ev_end ev) (ev_start ev) = 86400 * 1000000.
Proof.
  intros Hn Hs He Hd.
  rewrite (parse_component_vevent tz calendar_name c _ Hn Hs), He.
  rewrite (parse_component_vevent tz calendar_name _ (DateOnly d))
    by (cbn [name DTSTART]; assumption).
  cbn [SUMMARY LOCATION DTEND].
  destruct e as [d'|n|a]; [discriminate Hd| |];
    (split; [reflexivity|]); eexists; (split; [reflexivity|]);
    cbn [normalize_times fst snd ev_start ev_end ev_is_all_day];
    (split; [reflexivity|]); (split; [reflexivity|]);
    unfold dt_sub; rewrite instant_dt_add; lia.
Qed.

(** The loop body on any VEVENT with a DTSTART: the start is the normalized
    start value; the end is a default when DTEND is missing or is a datetime
    next to a date, and the normalized end value otherwise. *)
Lemma end_defaulted_or_kept (tz : tzinfo) (calendar_name : string)
    (c : Component) (dtstart : temporal) :
  name c = "VEVENT" -> DTSTART c = Some dtstart ->
  exists ev,
    parse_component tz calendar_name c = Ok (Some ev) /\
    instant (ev_start ev) = instant (to_aware tz dtstart) /\
    ev_is_all_day ev = is_date_only dtstart /\
    match DTEND c with
    | None => instant (ev_start ev) < instant (ev_end ev)
    | Some dtend =>
        if is_date_only dtstart && negb (is_date_only dtend)
        then instant (ev_start ev) < instant (ev_end ev)
        else instant (ev_end ev) = instant (to_aware tz dtend)
    end.
Proof.
  intros Hn Hs.
  rewrite (parse_component_vevent tz calendar_name c dtstart Hn Hs).
  eexists. split; [reflexivity|]. cbn [ev_start ev_end ev_is_all_day].
  destruct dtstart as [d|n|a]; destruct (DTEND c) as [[d'|n'|a']|];
    cbn [normalize_times is_date_only fst snd to_aware andb negb];
    rewrite ?instant_astimezone, ?instant_dt_add;
    repeat split; try reflexivity; lia.
Qed.

(** The loop body on what the expansion hands over: both values are
    normalized, neither is defaulted. *)
Lemma expanded_component_parsed tz calendar_name c :
  expanded c ->
  exists dtstart dtend ev,
    DTSTART c = Some dtstart /\ DTEND c = Some dtend /\
    in_order dtstart dtend /\
    parse_component tz calendar_name c = Ok (Some ev) /\
    instant (ev_start ev) = instant (to_aware tz dtstart) /\
    instant (ev_end ev) = instant (to_aware tz dtend) /\
    ev_is_all_day ev = is_date_only dtstart.
Proof.
  intros (Hn & dtstart & dtend & Hs & He & Ho).
  destruct (end_defaulted_or_kept tz calendar_name c dtstart Hn Hs)
    as (ev & Hp & Hstart & Hall & Hend).
  exists dtstart, dtend, ev. rewrite He in Hend.
  repeat split; try assumption.
  destruct dtstart as [d|n|a]; destruct dtend as [d'|n'|a'];
    cbn [in_order] in Ho; try contradiction; exact Hend.
Qed.



(** In the night of the change to summer time the floating 02:30 is read
    as CET and lands on 03:30 CEST; the floating 03:00 is CEST as it is. *)
Example gap_occurrence_parsed :
  parse_component prague_2024 "Work" gap_occurrence =
  Ok (Some {| ev_title := "Call";
              ev_start := {| local := mknaive (ymd2ord 2024 3 31) 3 30 0 0;
                             utcoffset := 7200 |};
              ev_end := {| local := mknaive (ymd2ord 2024 3 31) 3 0 0 0;
                           utcoffset := 7200 |};
              ev_is_all_day := false; ev_location := "";
              ev_calendar_name := "Work" |}).
Proof. vm_compute. reflexivity. Qed.



Lemma gap_occurrence_ok : expanded gap_occurrence.
Proof.
  split; [reflexivity|]. eexists. eexists.
  split; [reflexivity|]. split; [reflexivity|].
  vm_compute. discriminate.
Qed.



(** C1, as stated, fails, also on what the expansion hands over: the call
    from 02:30 to 03:00 of the night without the hour from 02:00 to 03:00
    becomes an event from 03:30 to 03:00. *)
Lemma inverted_interval_not_repaired :
  ~ (forall tz calendar_name c ev,
       expanded c ->
       parse_component tz calendar_name c = Ok (Some ev) ->
       instant (ev_start ev) <= instant (ev_end ev)).
Proof.
  intros H.
  specialize (H prague_2024 "Work" gap_occurrence _ gap_occurrence_ok
                gap_occurrence_parsed).
  vm_compute in H. apply H. reflexivity.
Qed.

(** C1, amended. The event of an occurrence starts and ends at the
    normalized start and end values.  Nothing compares the two: the end is
    not before the start when the pair is aware or the target zone has one
    offset throughout, and otherwise it is whatever localization makes of
    the pair. *)
Theorem end_kept_as_normalized (tz : tzinfo) (calendar_name : string)
    (c : Component) :
  expanded c ->
  exists dtstart dtend ev,
    DTSTART c = Some dtstart /\ DTEND c = Some dtend /\
    parse_component tz calendar_name c = Ok (Some ev) /\
    instant (ev_start ev) = instant (to_aware tz dtstart) /\
    instant (ev_end ev) = instant (to_aware tz dtend) /\
    ((exists a b, dtstart = Zoned a /\ dtend = Zoned b) \/
     (exists off, tz = fixed_zone off) ->
     instant (ev_start ev) <= instant (ev_end ev)).
Proof.
  intros Hc.
  destruct (expanded_component_parsed tz calendar_name c Hc)
    as (dtstart & dtend & ev & Hs & He & Ho & Hp & Hstart & Hend & _).
  exists dtstart, dtend, ev. repeat split; try assumption.
  rewrite Hstart, Hend. intros [(a & b & -> & ->)|(off & ->)].
  - exact Ho.
  - destruct dtstart as [d|n|a]; destruct dtend as [d'|n'|a'];
      cbn [in_order] in Ho; try contradiction;
      unfold naive_le, to_aware, localize, instant, fixed_zone, combine_min,
        timestamp in *;
      cbn [local utcoffset nd_date nd_hour nd_minute nd_second
           nd_microsecond tz_localize_utcoffset] in *; lia.
Qed.

Lemma end_kept_as_normalized_witness :
  exists ev,
    parse_component prague_2024 "Work" gap_occurrence = Ok (Some ev) /\
    instant (ev_start ev) =
    instant (localize prague_2024 (mknaive (ymd2ord 2024 3 31) 2 30 0 0)) /\
    instant (ev_end ev) =
    instant (localize prague_2024 (mknaive (ymd2ord 2024 3 31) 3 0 0 0)) /\
    dt_sub (ev_end ev) (ev_start ev) = - (30 * 60 * 1000000).
Proof.
  destruct (end_kept_as_normalized prague_2024 "Work" gap_occurrence
              gap_occurrence_ok)
    as (dtstart & dtend & ev & Hs & He & Hp & Hstart & Hend & _).
  injection Hs as <-. injection He as <-.
  exists ev. split; [exact Hp|]. split; [exact Hstart|].
  split; [exact Hend|].
  unfold dt_sub. rewrite Hstart, Hend. reflexivity.
Defined.

(** ** Deduplicator *)

Section SortKey.

Lemma string_ltb_lt a b : String.ltb a b = true <-> String_as_OT.lt a b.
Proof.
  unfold String.ltb. rewrite <- String_as_OT.cmp_lt.
  unfold String_as_OT.cmp. destruct (String.compare a b); split;
    intros; congruence.
Qed.

Lemma string_ltb_irrefl a : String.ltb a a = false.
Proof.
  destruct (String.ltb a a) eqn:E; [|reflexivity].
  apply string_ltb_lt in E. exfalso.
  exact (String_as_OT.lt_not_eq _ _ E eq_refl).
Qed.

Lemma string_ltb_trans a b c :
  String.ltb a b = true -> String.ltb b c = true -> String.ltb a c = true.
Proof.
  rewrite !string_ltb_lt. apply String_as_OT.lt_trans.
Qed.

Lemma string_leb_ltb a b : String.leb a b = negb (String.ltb b a).
Proof.
  unfold String.leb, String.ltb. rewrite (String.compare_antisym a b).
  destruct (String.compare b a); reflexivity.
Qed.

Lemma string_ltb_total a b :
  String.ltb a b = false -> String.ltb b a = false -> a = b.
Proof.
  unfold String.ltb. rewrite (String.compare_antisym a b).
  destruct (String.compare b a) eqn:E; simpl; try discriminate.
  intros _ _. symmetry. apply String.compare_eq_iff. exact E.
Qed.

(** [not (b < a)] on sort keys is [a <= b]. *)
Lemma sort_key_ltb_false a b :
  sort_key_ltb b a = false <-> start_title_le a b.
Proof.
  unfold sort_key_ltb, start_title_le, dt_eqb, dt_ltb.
  rewrite string_leb_ltb.
  destruct (Z.eqb_spec (instant (ev_start b)) (instant (ev_start a)))
    as [E|N].
  - split.
    + intros H. right. rewrite H. split; [lia | reflexivity].
    + intros [H|[_ H]]; [lia|].
      destruct (String.ltb (ev_title b) (ev_title a));
        [discriminate | reflexivity].
  - rewrite Z.ltb_ge. split; [intros; left; lia | intros [H|[H _]]; lia].
Qed.

Lemma sort_key_ltb_le a b : sort_key_ltb a b = true -> start_title_le a b.
Proof.
  unfold sort_key_ltb, start_title_le, dt_eqb, dt_ltb.
  rewrite string_leb_ltb.
  destruct (Z.eqb_spec (instant (ev_start a)) (instant (ev_start b)))
    as [E|N].
  - intros H. right. split; [exact E|].
    destruct (String.ltb (ev_title b) (ev_title a)) eqn:E'; [|reflexivity].
    pose proof (string_ltb_trans _ _ _ H E') as T.
    rewrite string_ltb_irrefl in T. discriminate.
  - rewrite Z.ltb_lt. intros; left; assumption.
Qed.

Lemma start_title_le_trans a b c :
  start_title_le a b -> start_title_le b c -> start_title_le a c.
Proof.
  unfold start_title_le. rewrite !string_leb_ltb.
  intros [H1|[E1 T1]] [H2|[E2 T2]]; try (left; lia).
  right. split; [lia|].
  destruct (String.ltb (ev_title c) (ev_title a)) eqn:Eca; [|reflexivity].
  destruct (String.ltb (ev_title b) (ev_title a)) eqn:Eba;
    [discriminate|].
  destruct (String.ltb (ev_title c) (ev_title b)) eqn:Ecb;
    [discriminate|].
  destruct (String.ltb (ev_title a) (ev_title b)) eqn:Eab.
  - pose proof (string_ltb_trans _ _ _ Eca Eab). congruence.
  - rewrite (string_ltb_total _ _ Eab Eba) in Eca. congruence.
Qed.

End SortKey.

Lemma insert_sorted_perm x l : Permutation (insert_sorted x l) (x :: l).
Proof.
  induction l as [|y l IH]; simpl.
  - reflexivity.
  - destruct (sort_key_ltb x y); [reflexivity|].
    rewrite IH. apply perm_swap.
Qed.

Lemma insert_sorted_sorted x l :
  StronglySorted start_title_le l ->
  StronglySorted start_title_le (insert_sorted x l).
Proof.
  induction 1 as [|y l Hs IH Hy]; simpl.
  - repeat constructor.
  - destruct (sort_key_ltb x y) eqn:E.
    + constructor; [constructor; assumption|].
      apply sort_key_ltb_le in E. constructor; [exact E|].
      eapply List.Forall_impl; [|exact Hy].
      intros z Hz. exact (start_title_le_trans _ _ _ E Hz).
    + constructor; [exact IH|].
      apply sort_key_ltb_false in E.
      rewrite (List.Forall_forall (start_title_le y)).
      intros z Hz.
      apply (Permutation_in _ (insert_sorted_perm x l)) in Hz.
      destruct Hz as [<-|Hz]; [exact E|].
      rewrite List.Forall_forall in Hy. apply Hy, Hz.
Qed.

Lemma sort_events_from acc l :
  StronglySorted start_title_le acc ->
  Permutation (fold_left (fun acc x => insert_sorted x acc) l acc) (acc ++ l)
  /\ StronglySorted start_title_le
       (fold_left (fun acc x => insert_sorted x acc) l acc).
Proof.
  revert acc. induction l as [|x l IH]; intros acc Hacc; simpl.
  - rewrite app_nil_r. split; [reflexivity | exact Hacc].
  - destruct (IH (insert_sorted x acc) (insert_sorted_sorted x acc Hacc))
      as [Hp Hs].
    split; [|exact Hs].
    rewrite Hp, insert_sorted_perm.
    change (x :: acc ++ l) with ((x :: acc) ++ l).
    rewrite (Permutation_middle acc l x).
    reflexivity.
Qed.

Lemma sort_events_spec l :
  Permutation (sort_events l) l /\ StronglySorted start_title_le (sort_events l).
Proof. apply (sort_events_from [] l). constructor. Qed.

(** The keys of a list of events, as [keyset] holds them. *)
Lemma elem_of_keys (k : key) (l : list Event) :
  k ∈ (list_to_set (map key_of l) : gset key) <->
  exists ev, In ev l /\ key_of ev = k.
Proof.
  rewrite elem_of_list_to_set, list_elem_of_In, in_map_iff.
  split; intros (ev & H1 & H2); exists ev; auto.
Qed.

Lemma dedupe_loop_app l1 l2 keyset out :
  dedupe_loop (l1 ++ l2) keyset out =
  dedupe_loop l2 (keyset ∪ list_to_set (map key_of l1))
    (dedupe_loop l1 keyset out).
Proof.
  revert keyset out. induction l1 as [|ev l1 IH]; intros keyset out.
  - simpl. rewrite union_empty_r_L. reflexivity.
  - cbn [app dedupe_loop map]. rewrite list_to_set_cons, assoc_L by apply _.
    case_decide as Hk; rewrite IH.
    + rewrite (comm_L (∪) keyset {[key_of ev]}).
      rewrite (subseteq_union_1_L {[key_of ev]} keyset); [reflexivity|].
      apply singleton_subseteq_l. exact Hk.
    + rewrite (comm_L (∪) keyset {[key_of ev]}). reflexivity.
Qed.

Lemma first_occurrences_snoc pre ev :
  first_occurrences (pre ++ [ev]) =
  if decide (key_of ev ∈ (list_to_set (map key_of pre) : gset key))
  then first_occurrences pre
  else first_occurrences pre ++ [ev].
Proof.
  unfold first_occurrences. rewrite dedupe_loop_app. cbn [dedupe_loop].
  rewrite union_empty_l_L. reflexivity.
Qed.

Lemma first_occurrences_incl events ev :
  In ev (first_occurrences events) -> In ev events.
Proof.
  induction events as [|x events IH] using rev_ind.
  - intros [].
  - rewrite first_occurrences_snoc, in_app_iff.
    case_decide as Hk; [intros Hin; left; auto|].
    rewrite in_app_iff. intros [Hin|Hin]; [left; auto | right; exact Hin].
Qed.

(** Every key of the input is the key of a survivor. *)
Lemma first_occurrences_keeps_key events ev :
  In ev events ->
  exists kept, In kept (first_occurrences events) /\ key_of kept = key_of ev.
Proof.
  revert ev. induction events as [|x events IH] using rev_ind; intros ev.
  - intros [].
  - rewrite in_app_iff, first_occurrences_snoc. intros [H|[->|[]]].
    + destruct (IH ev H) as (kept & Hin & Hk). exists kept.
      case_decide as Hx; [|rewrite in_app_iff]; auto.
    + case_decide as Hk.
      * apply elem_of_keys in Hk. destruct Hk as (e' & He' & Hk).
        destruct (IH e' He') as (kept & Hin & Hk'). exists kept.
        split; [exact Hin | congruence].
      * exists ev. rewrite in_app_iff. split; [right; left|]; reflexivity.
Qed.

Lemma dedupe_and_sort_keeps_key events ev :
  In ev events ->
  exists kept, In kept (dedupe_and_sort events) /\ key_of kept = key_of ev.
Proof.
  intros H. destruct (first_occurrences_keeps_key events ev H)
    as (kept & Hin & Hk).
  exists kept. split; [|exact Hk].
  apply (Permutation_in _
           (Permutation_sym (proj1 (sort_events_spec _)))). exact Hin.
Qed.

(** C3. [dedupe_and_sort] walks the input in order and drops an event
    exactly when an earlier event has the same
    [(title, start, end, calendar_name)]; the survivors are returned sorted
    by start, then by title; events that differ in [calendar_name] do not
    remove one another. *)
Theorem dedupe_and_sort_keeps_first_sorted :
  first_occurrences [] = [] /\
  (forall pre ev,
     (exists earlier, In earlier pre /\ key_of earlier = key_of ev) ->
     first_occurrences (pre ++ [ev]) = first_occurrences pre) /\
  (forall pre ev,
     (forall earlier, In earlier pre -> key_of earlier <> key_of ev) ->
     first_occurrences (pre ++ [ev]) = first_occurrences pre ++ [ev]) /\
  (forall events,
     Permutation (dedupe_and_sort events) (first_occurrences events) /\
     StronglySorted start_title_le (dedupe_and_sort events)) /\
  (forall ev other,
     ev_calendar_name ev <> ev_calendar_name other ->
     Permutation (dedupe_and_sort [ev; other]) [ev; other]).
Proof.
  split; [reflexivity|]. split; [|split; [|split]].
  - intros pre ev Hdup. rewrite first_occurrences_snoc.
    case_decide as Hk; [reflexivity|].
    exfalso. apply Hk. apply elem_of_keys. exact Hdup.
  - intros pre ev Hnew. rewrite first_occurrences_snoc.
    case_decide as Hk; [|reflexivity].
    apply elem_of_keys in Hk. destruct Hk as (e' & Hin & Hk).
    exfalso. exact (Hnew e' Hin Hk).
  - intros events. apply sort_events_spec.
  - intros ev other Hne.
    unfold dedupe_and_sort. rewrite (proj1 (sort_events_spec _)).
    change (dedupe_loop [ev; other] ∅ [])
      with (first_occurrences ([ev] ++ [other])).
    rewrite first_occurrences_snoc.
    case_decide as Hk; [|reflexivity].
    apply elem_of_keys in Hk. destruct Hk as (e' & [<-|[]] & Hk).
    exfalso. apply Hne. unfold key_of in Hk. congruence.
Qed.

Lemma dedupe_and_sort_keeps_first_sorted_witness :
  first_occurrences ([standup "A"; review] ++ [standup "A"]) =
  first_occurrences [standup "A"; review] /\
  first_occurrences ([standup "A"; review] ++ [standup "B"]) =
  first_occurrences [standup "A"; review] ++ [standup "B"] /\
  Permutation (dedupe_and_sort [standup "A"; standup "B"])
    [standup "A"; standup "B"].
Proof.
  destruct dedupe_and_sort_keeps_first_sorted
    as (_ & Hdup & Hnew & _ & Hcal).
  split; [|split].
  - apply Hdup. exists (standup "A"). split; [left|]; reflexivity.
  - apply Hnew. intros earlier [<-|[<-|[]]]; discriminate.
  - apply Hcal. discriminate.
Defined.

(** Equal sort keys keep their input order. *)
Example dedupe_and_sort_sample :
  dedupe_and_sort [review; standup "B"; standup "A"; review; standup "B"] =
  [standup "B"; standup "A"; review].
Proof. vm_compute. reflexivity. Qed.

(** ** Calendar fields and day labels *)

(** All 146097 days of the 400-year cycle, by evaluation. *)
Lemma cycle_days_ok : all_from cycle_day_ok 0 (Z.to_nat 146097) = true.
Proof. vm_compute. reflexivity. Qed.

Lemma all_from_spec p count : forall start,
  all_from p start count = true ->
  forall r, start <= r < start + Z.of_nat count -> p r = true.
Proof.
  induction count as [|count IH]; intros start H r Hr; [lia|].
  cbn [all_from] in H. apply andb_prop in H. destruct H as [H0 H1].
  destruct (Z.eq_dec r start) as [->|N]; [exact H0|].
  apply (IH (start + 1) H1). lia.
Qed.

Lemma cycle_day r : 0 <= r < 146097 -> cycle_day_ok r = true.
Proof.
  intros Hr. apply (all_from_spec _ _ 0 cycle_days_ok). lia.
Qed.

(** [ord2ymd] repeats every 146097 days, 400 years later. *)
Lemma ord2ymd_cycle n :
  ord2ymd n =
  let '(y, m, d) := ord2ymd ((n - 1) mod 146097 + 1) in
  (y + 400 * ((n - 1) / 146097), m, d).
Proof.
  pose proof (Z.mod_pos_bound (n - 1) 146097 ltac:(lia)) as Hr.
  unfold ord2ymd.
  replace ((n - 1) mod 146097 + 1 - 1) with ((n - 1) mod 146097) by lia.
  rewrite (Z.div_small ((n - 1) mod 146097) 146097) by exact Hr.
  rewrite (Z.mod_small ((n - 1) mod 146097) 146097) by exact Hr.
  set (r := (n - 1) mod 146097). set (q := (n - 1) / 146097).
  cbv zeta.
  repeat match goal with
         | |- context [if ?c then _ else _] => destruct c
         end; f_equal; try f_equal; lia.
Qed.

Lemma is_leap_cycle y q : is_leap (y + 400 * q) = is_leap y.
Proof.
  unfold is_leap.
  replace ((y + 400 * q) mod 4) with (y mod 4)
    by (Z.div_mod_to_equations; lia).
  replace ((y + 400 * q) mod 100) with (y mod 100)
    by (Z.div_mod_to_equations; lia).
  replace ((y + 400 * q) mod 400) with (y mod 400)
    by (Z.div_mod_to_equations; lia).
  reflexivity.
Qed.

Lemma ymd2ord_cycle y m d q :
  ymd2ord (y + 400 * q) m d = ymd2ord y m d + 146097 * q.
Proof.
  unfold ymd2ord, days_before_month. rewrite is_leap_cycle.
  unfold days_before_year. cbv zeta.
  replace ((y + 400 * q - 1) / 4) with ((y - 1) / 4 + 100 * q)
    by (Z.div_mod_to_equations; lia).
  replace ((y + 400 * q - 1) / 100) with ((y - 1) / 100 + 4 * q)
    by (Z.div_mod_to_equations; lia).
  replace ((y + 400 * q - 1) / 400) with ((y - 1) / 400 + q)
    by (Z.div_mod_to_equations; lia).
  lia.
Qed.

(** The fields of a date lead back to its ordinal, and are in range. *)
Lemma ord2ymd_fields n :
  let '(y, m, d) := ord2ymd n in
  ymd2ord y m d = n /\ 1 <= m <= 12 /\ 1 <= d <= 31 /\
  (valid_date n -> 1 <= y <= 9999).
Proof.
  pose proof (Z.mod_pos_bound (n - 1) 146097 ltac:(lia)) as Hr.
  pose proof (Z.div_mod (n - 1) 146097 ltac:(lia)) as Hn.
  pose proof (cycle_day _ Hr) as Hc.
  rewrite ord2ymd_cycle. unfold cycle_day_ok in Hc.
  destruct (ord2ymd ((n - 1) mod 146097 + 1)) as [[y m] d].
  repeat (apply andb_prop in Hc; destruct Hc as [Hc ?]).
  rewrite ymd2ord_cycle. unfold valid_date.
  repeat match goal with
         | H : (_ <=? _) = true |- _ => apply Z.leb_le in H
         | H : (_ =? _) = true |- _ => apply Z.eqb_eq in H
         end.
  repeat split; lia.
Qed.

Lemma digit_inj a b : digit a = digit b -> a mod 10 = b mod 10.
Proof.
  unfold digit. intros H.
  pose proof (Z.mod_pos_bound a 10 ltac:(lia)).
  pose proof (Z.mod_pos_bound b 10 ltac:(lia)).
  apply (f_equal nat_of_ascii) in H.
  rewrite !nat_ascii_embedding in H by lia. lia.
Qed.

Lemma two_digits_inj a b :
  0 <= a <= 99 -> 0 <= b <= 99 -> two_digits a = two_digits b -> a = b.
Proof.
  intros Ha Hb H. unfold two_digits in H. injection H as H1 H2.
  apply digit_inj in H1, H2.
  Z.div_mod_to_equations. lia.
Qed.

Lemma four_digits_inj a b :
  0 <= a <= 9999 -> 0 <= b <= 9999 -> four_digits a = four_digits b -> a = b.
Proof.
  intros Ha Hb H. unfold four_digits, two_digits in H.
  injection H as H1 H2 H3 H4.
  apply digit_inj in H1, H2, H3, H4.
  assert (Da : a = 1000 * ((a / 1000) mod 10) + 100 * ((a / 100) mod 10)
                   + 10 * ((a / 10) mod 10) + a mod 10)
    by (Z.div_mod_to_equations; lia).
  assert (Db : b = 1000 * ((b / 1000) mod 10) + 100 * ((b / 100) mod 10)
                   + 10 * ((b / 10) mod 10) + b mod 10)
    by (Z.div_mod_to_equations; lia).
  lia.
Qed.

Lemma weekday_name_prefix w1 w2 s1 s2 :
  0 <= w1 < 7 -> 0 <= w2 < 7 ->
  weekday_name w1 +:+ " " +:+ s1 = weekday_name w2 +:+ " " +:+ s2 ->
  s1 = s2.
Proof.
  intros H1 H2.
  assert (C1 : w1 = 0 \/ w1 = 1 \/ w1 = 2 \/ w1 = 3 \/ w1 = 4 \/ w1 = 5 \/
               w1 = 6) by lia.
  assert (C2 : w2 = 0 \/ w2 = 1 \/ w2 = 2 \/ w2 = 3 \/ w2 = 4 \/ w2 = 5 \/
               w2 = 6) by lia.
  clear H1 H2.
  repeat (destruct C1 as [->|C1] || subst w1);
    repeat (destruct C2 as [->|C2] || subst w2);
    intros H; vm_compute in H; congruence.
Qed.

Lemma strftime_dmY_inj n1 n2 :
  valid_date (nd_date n1) -> valid_date (nd_date n2) ->
  strftime_dmY n1 = strftime_dmY n2 -> nd_date n1 = nd_date n2.
Proof.
  intros V1 V2. unfold strftime_dmY, strftime_dm.
  pose proof (ord2ymd_fields (nd_date n1)) as F1.
  pose proof (ord2ymd_fields (nd_date n2)) as F2.
  destruct (ord2ymd (nd_date n1)) as [[y1 m1] d1].
  destruct (ord2ymd (nd_date n2)) as [[y2 m2] d2].
  destruct F1 as (E1 & Hm1 & Hd1 & Hy1), F2 as (E2 & Hm2 & Hd2 & Hy2).
  specialize (Hy1 V1). specialize (Hy2 V2).
  unfold four_digits, two_digits. cbn [String.append]. intros H.
  injection H as Da Db Ma Mb Ya Yb Yc Yd.
  assert (Ed : d1 = d2).
  { apply two_digits_inj; [lia | lia |]. unfold two_digits. congruence. }
  assert (Em : m1 = m2).
  { apply two_digits_inj; [lia | lia |]. unfold two_digits. congruence. }
  assert (Ey : y1 = y2).
  { apply four_digits_inj; [lia | lia |].
    unfold four_digits, two_digits. congruence. }
  congruence.
Qed.

(** Valid dates with the same day label are the same date. *)
Lemma strftime_A_dmY_inj n1 n2 :
  valid_date (nd_date n1) -> valid_date (nd_date n2) ->
  strftime_A_dmY n1 = strftime_A_dmY n2 -> nd_date n1 = nd_date n2.
Proof.
  intros V1 V2 H. unfold strftime_A_dmY in H.
  apply weekday_name_prefix in H;
    try (unfold weekday; apply weekday_of_date_range).
  exact (strftime_dmY_inj n1 n2 V1 V2 H).
Qed.

(** ** DayGrouper *)

Example night_events_parsed :
  night_events =
  [ {| ev_title := "Backup";
       ev_start := {| local := mknaive (ymd2ord 2010 11 6) 22 0 0 0;
                      utcoffset := -9000 |};
       ev_end := {| local := mknaive (ymd2ord 2010 11 6) 23 0 0 0;
                    utcoffset := -9000 |};
       ev_is_all_day := false; ev_location := "";
       ev_calendar_name := "Ops" |};
    {| ev_title := "Deploy";
       ev_start := {| local := mknaive (ymd2ord 2010 11 7) 0 0 30 0;
                      utcoffset := -9000 |};
       ev_end := {| local := mknaive (ymd2ord 2010 11 7) 0 0 30 0;
                    utcoffset := -12600 |};
       ev_is_all_day := false; ev_location := "";
       ev_calendar_name := "Ops" |};
    {| ev_title := "Check";
       ev_start := {| local := mknaive (ymd2ord 2010 11 6) 23 30 0 0;
                      utcoffset := -12600 |};
       ev_end := {| local := mknaive (ymd2ord 2010 11 7) 0 30 0 0;
                    utcoffset := -12600 |};
       ev_is_all_day := false; ev_location := "";
       ev_calendar_name := "Ops" |} ].
Proof. vm_compute. reflexivity. Qed.

Example night_events_grouped :
  map (fun g => (fst g, map item_title (snd g)))
      (group_by_day night_events st_johns_2010) =
  [("Saturday 06.11.2010", ["Backup"; "Check"]);
   ("Sunday 07.11.2010", ["Deploy"])].
Proof. vm_compute. reflexivity. Qed.

(** C7, as stated, fails: the night's events are sorted by (start, title)
    and have distinct keys, yet the day lists, concatenated, give
    Backup, Check, Deploy and not Backup, Deploy, Check. *)
Lemma grouping_reorders_across_clock_change :
  ~ (forall events tz,
       StronglySorted start_title_le events ->
       NoDup (map key_of events) ->
       concat (map snd (group_by_day events tz)) = map make_item events).
Proof.
  intros H.
  specialize (H night_events st_johns_2010).
  assert (Hs : StronglySorted start_title_le night_events).
  { unfold night_events. simpl parse_components. apply sort_events_spec. }
  assert (Hd : NoDup (map key_of night_events)).
  { apply (bool_decide_unpack _). vm_compute. exact I. }
  specialize (H Hs Hd).
  apply (f_equal (map item_title)) in H.
  vm_compute in H. discriminate H.
Qed.

(** A day's list at the head of the dictionary collects the events of
    that day; the others are grouped behind it as if it were not there. *)
Lemma fold_grouped_head l k items grouped :
  fold_left group_step l ((k, items) :: grouped) =
  (k, items ++ map make_item (List.filter (on_day k) l))
    :: fold_left group_step (List.filter (off_day k) l) grouped.
Proof.
  revert items grouped. induction l as [|x l IH]; intros items grouped.
  - simpl. rewrite app_nil_r. reflexivity.
  - cbn [fold_left List.filter].
    change (group_step ((k, items) :: grouped) x)
      with (grouped_append ((k, items) :: grouped) (day_label x)
              (make_item x)).
    change (off_day k x) with (negb (String.eqb k (day_label x))).
    change (on_day k x) with (String.eqb k (day_label x)).
    cbn [grouped_append].
    destruct (String.eqb k (day_label x)); cbn [negb].
    + rewrite IH. cbn [map]. rewrite <- app_assoc. reflexivity.
    + rewrite IH. reflexivity.
Qed.

Lemma group_by_day_cons ev l tz :
  group_by_day (ev :: l) tz =
  (day_label ev,
   make_item ev :: map make_item (List.filter (on_day (day_label ev)) l))
    :: group_by_day (List.filter (off_day (day_label ev)) l) tz.
Proof.
  unfold group_by_day. cbn [fold_left grouped_append].
  apply (fold_grouped_head l (day_label ev) [make_item ev] []).
Qed.

Lemma filter_run k run rest :
  Forall (fun c => day_label c = k) run ->
  Forall (fun c => day_label c <> k) rest ->
  List.filter (on_day k) (run ++ rest) = run /\
  List.filter (off_day k) (run ++ rest) = rest.
Proof.
  intros Hrun Hrest. rewrite !List.filter_app.
  assert (E1 : List.filter (on_day k) run = run /\
               List.filter (off_day k) run = []).
  { induction Hrun as [|c run Hc _ [IH1 IH2]]; [split; reflexivity|].
    cbn [List.filter].
    change (off_day k c) with (negb (String.eqb k (day_label c))).
    change (on_day k c) with (String.eqb k (day_label c)).
    rewrite Hc, String.eqb_refl. cbn [negb]. rewrite IH1, IH2.
    split; reflexivity. }
  assert (E2 : List.filter (on_day k) rest = [] /\
               List.filter (off_day k) rest = rest).
  { induction Hrest as [|c rest Hc _ [IH1 IH2]]; [split; reflexivity|].
    cbn [List.filter].
    change (off_day k c) with (negb (String.eqb k (day_label c))).
    change (on_day k c) with (String.eqb k (day_label c)).
    destruct (String.eqb_spec k (day_label c)) as [E|_]; [congruence|].
    cbn [negb]. rewrite IH1, IH2. split; reflexivity. }
  destruct E1 as [-> ->], E2 as [-> ->].
  rewrite app_nil_r. split; reflexivity.
Qed.

(** When the events of day [k] that occur in [l] are preceded by events
    of day [k] only, [l] is a run of day [k] followed by other days. *)
Lemma leading_run k l :
  (forall l2 b l3, l = l2 ++ b :: l3 -> day_label b = k ->
                   Forall (fun c => day_label c = k) l2) ->
  exists run rest,
    l = run ++ rest /\
    Forall (fun c => day_label c = k) run /\
    Forall (fun c => day_label c <> k) rest.
Proof.
  induction l as [|b l IH]; intros Hl.
  - exists [], []. repeat split; constructor.
  - destruct (String.eqb_spec (day_label b) k) as [E|N].
    + destruct IH as (run & rest & -> & Hrun & Hrest).
      { intros l2 c l3 -> Hc.
        specialize (Hl (b :: l2) c l3 eq_refl Hc).
        inversion Hl; assumption. }
      exists (b :: run), rest. repeat split; [constructor|]; assumption.
    + exists [], (b :: l). repeat split; [constructor|].
      apply List.Forall_forall. intros c [<-|Hc]; [exact N|].
      intros E. apply in_split in Hc. destruct Hc as (l2 & l3 & ->).
      specialize (Hl (b :: l2) c l3 eq_refl E).
      inversion Hl; contradiction.
Qed.

Lemma same_day_adjacent_suffix l1 l2 :
  same_day_adjacent (l1 ++ l2) -> same_day_adjacent l2.
Proof.
  intros H l1' a m b l3 -> E.
  apply (H (l1 ++ l1') a m b l3); [|exact E].
  rewrite <- app_assoc. reflexivity.
Qed.

Lemma concat_of_adjacent_bounded n tz :
  forall events, (length events <= n)%nat -> same_day_adjacent events ->
  concat (map snd (group_by_day events tz)) = map make_item events.
Proof.
  induction n as [|n IH]; intros [|ev l] Hlen Hadj; try reflexivity.
  - simpl in Hlen. lia.
  - destruct (leading_run (day_label ev) l) as (run & rest & -> & Hrun & Hrest).
    { intros l2 b l3 -> Hb.
      specialize (Hadj [] ev l2 b l3 eq_refl (eq_sym Hb)).
      exact Hadj. }
    rewrite group_by_day_cons.
    destruct (filter_run _ run rest Hrun Hrest) as [-> ->].
    cbn [map concat snd]. rewrite IH.
    + rewrite map_app. reflexivity.
    + simpl in Hlen. rewrite length_app in Hlen. lia.
    + apply (same_day_adjacent_suffix (ev :: run) rest). exact Hadj.
Qed.


Lemma strongly_sorted_pair {A} (R : A -> A -> Prop) l1 x l2 y l3 :
  StronglySorted R (l1 ++ x :: l2 ++ y :: l3) -> R x y.
Proof.
  induction l1 as [|z l1 IH]; cbn [app]; intros H;
    apply StronglySorted_inv in H; destruct H as [Hs Hx].
  - rewrite List.Forall_forall in Hx. apply Hx.
    apply in_or_app. right. left. reflexivity.
  - exact (IH Hs).
Qed.

Lemma strftime_A_dmY_date n1 n2 :
  nd_date n1 = nd_date n2 -> strftime_A_dmY n1 = strftime_A_dmY n2.
Proof.
  intros E. unfold strftime_A_dmY, strftime_dmY, strftime_dm, weekday.
  rewrite E. reflexivity.
Qed.

(** With one UTC offset, the order of the instants is the order of the
    wall-clock readings, hence of the dates. *)
Lemma start_title_le_date off a b :
  utcoffset (ev_start a) = off -> utcoffset (ev_start b) = off ->
  valid_naive (local (ev_start a)) -> valid_naive (local (ev_start b)) ->
  start_title_le a b ->
  nd_date (local (ev_start a)) <= nd_date (local (ev_start b)).
Proof.
  unfold start_title_le, instant, timestamp, valid_naive.
  intros -> Eb Ha Hb H. rewrite Eb in H. lia.
Qed.

(** A sequence sorted by (start, title) whose starts carry one UTC offset
    has the events of each day next to one another. *)
Lemma sorted_one_offset_adjacent events off :
  StronglySorted start_title_le events ->
  Forall (fun ev => utcoffset (ev_start ev) = off /\ valid_start ev) events ->
  same_day_adjacent events.
Proof.
  intros Hs Hall l1 a l2 b l3 -> E.
  rewrite List.Forall_forall in Hall.
  assert (Ha := Hall a ltac:(apply in_or_app; right; left; reflexivity)).
  assert (Hb := Hall b ltac:(apply in_or_app; right; right;
                             apply in_or_app; right; left; reflexivity)).
  destruct Ha as (Oa & Va & Da), Hb as (Ob & Vb & Db).
  assert (Eab : nd_date (local (ev_start a)) = nd_date (local (ev_start b)))
    by exact (strftime_A_dmY_inj _ _ Da Db E).
  apply List.Forall_forall. intros c Hc.
  assert (Hc' := Hall c ltac:(apply in_or_app; right; right;
                              apply in_or_app; left; exact Hc)).
  destruct Hc' as (Oc & Vc & _).
  apply in_split in Hc. destruct Hc as (m1 & m2 & ->).
  assert (Hac : start_title_le a c).
  { apply (strongly_sorted_pair _ l1 a m1 c (m2 ++ b :: l3)).
    rewrite <- app_assoc in Hs. exact Hs. }
  assert (Hcb : start_title_le c b).
  { apply (strongly_sorted_pair _ (l1 ++ a :: m1) c m2 b l3).
    rewrite <- !app_assoc in Hs. rewrite <- app_assoc. exact Hs. }
  apply (start_title_le_date off) in Hac; try assumption.
  apply (start_title_le_date off) in Hcb; try assumption.
  apply strftime_A_dmY_date. lia.
Qed.

(** C7, amended. When events with the same day label stand next to one
    another in the input, the day lists, concatenated in the order of the
    dictionary, are the items of the input events in the input order, and
    the dictionary opens with the day of the first event.  This is the case
    of every sequence sorted by (start, title) whose starts carry one UTC
    offset. *)
Theorem group_by_day_concat (events : list Event) (tz : tzinfo) :
  (same_day_adjacent events ->
   concat (map snd (group_by_day events tz)) = map make_item events) /\
  (forall off,
     StronglySorted start_title_le events ->
     Forall (fun ev => utcoffset (ev_start ev) = off /\ valid_start ev)
       events ->
     concat (map snd (group_by_day events tz)) = map make_item events) /\
  match events with
  | [] => group_by_day events tz = []
  | first :: _ =>
      exists items days,
        group_by_day events tz = (day_label first, items) :: days
  end.
Proof.
  assert (Hconcat : same_day_adjacent events ->
            concat (map snd (group_by_day events tz)) = map make_item events).
  { intros Hadj.
    apply (concat_of_adjacent_bounded (length events)); [lia | exact Hadj]. }
  split; [exact Hconcat|]. split.
  - intros off Hs Hall. apply Hconcat.
    exact (sorted_one_offset_adjacent events off Hs Hall).
  - destruct events as [|first l]; [reflexivity|].
    rewrite group_by_day_cons. eexists. eexists. reflexivity.
Qed.

Lemma same_label_adjacent k events :
  Forall (fun c => day_label c = k) events -> same_day_adjacent events.
Proof.
  intros Hall l1 a l2 b l3 -> _.
  apply Forall_app in Hall. destruct Hall as [_ Hall].
  apply Forall_cons in Hall. destruct Hall as [Ha Hall].
  apply Forall_app in Hall. destruct Hall as [Hall _].
  eapply List.Forall_impl; [|exact Hall].
  intros c Hc. cbv beta in Hc. congruence.
Qed.

Example two_days_grouped :
  map (fun g => (fst g, map item_title (snd g)))
      (group_by_day [standup "A"; review; monthly_report] UTC) =
  [("Thursday 04.01.2024", ["Standup"; "Review"]);
   ("Friday 05.01.2024", ["Report"])].
Proof. vm_compute. reflexivity. Qed.

Lemma group_by_day_concat_witness :
  concat (map snd (group_by_day [standup "A"; standup "B"] UTC)) =
  map make_item [standup "A"; standup "B"] /\
  concat (map snd (group_by_day [standup "A"; review; monthly_report] UTC)) =
  map make_item [standup "A"; review; monthly_report].
Proof.
  split.
  - apply (proj1 (group_by_day_concat [standup "A"; standup "B"] UTC)).
    apply (same_label_adjacent "Thursday 04.01.2024").
    repeat constructor.
  - apply (proj1 (proj2 (group_by_day_concat
                           [standup "A"; review; monthly_report] UTC)) 0).
    + repeat constructor; left; vm_compute; reflexivity.
    + repeat (apply List.Forall_cons;
                [split; [reflexivity|];
                 split; [unfold valid_naive; simpl; lia
                        | unfold valid_date; vm_compute; split; discriminate]
                |]).
      apply List.Forall_nil.
Defined.

Example holiday_parsed :
  parse_component UTC "Home" holiday_no_end = Ok (Some holiday).
Proof. vm_compute. reflexivity. Qed.

Example holiday_grouped :
  group_by_day [holiday] UTC =
  [("Thursday 04.01.2024",
    [{| item_title := "(Bez názvu)"; item_start_str := "00:00";
        item_end_str := "00:00"; item_is_all_day := true;
        item_location := ""; item_calendar_name := "Home" |}])].
Proof. vm_compute. reflexivity. Qed.

(** C8, as stated, fails: the item of an all-day event carries the clock
    time of its start and end, neither an empty string nor the dash. *)
Lemma allday_item_carries_clock_time :
  ~ (forall ev tz label items item,
       ev_is_all_day ev = true ->
       In (label, items) (group_by_day [ev] tz) -> In item items ->
       (item_start_str item = "" \/ item_start_str item = "—") /\
       (item_end_str item = "" \/ item_end_str item = "—")).
Proof.
  intros H.
  destruct (H holiday UTC "Thursday 04.01.2024" [make_item holiday]
              (make_item holiday) eq_refl) as [[E|E] _].
  - rewrite holiday_grouped. left. reflexivity.
  - left. reflexivity.
  - vm_compute in E. discriminate E.
  - vm_compute in E. discriminate E.
Qed.

Lemma grouped_append_in grouped k i label items item :
  In (label, items) (grouped_append grouped k i) -> In item items ->
  (exists items0, In (label, items0) grouped /\ In item items0) \/
  (label = k /\ item = i).
Proof.
  induction grouped as [|[k0 items0] grouped IH]; cbn [grouped_append].
  - intros [E|[]] Hin. inversion E; subst.
    destruct Hin as [<-|[]]. right. split; reflexivity.
  - destruct (String.eqb_spec k0 k) as [->|N].
    + intros [E|Hin'] Hin.
      * inversion E; subst. apply in_app_iff in Hin.
        destruct Hin as [Hin|[<-|[]]].
        -- left. exists items0. split; [left; reflexivity | exact Hin].
        -- right. split; reflexivity.
      * left. exists items. split; [right; exact Hin' | exact Hin].
    + intros [E|Hin'] Hin.
      * inversion E; subst. left. exists items.
        split; [left; reflexivity | exact Hin].
      * destruct (IH Hin' Hin) as [(its & H1 & H2)|H1].
        -- left. exists its. split; [right; exact H1 | exact H2].
        -- right. exact H1.
Qed.

Lemma group_by_day_items_from grouped events label items item :
  In (label, items) (fold_left group_step events grouped) ->
  In item items ->
  (exists items0, In (label, items0) grouped /\ In item items0) \/
  (exists ev, In ev events /\ label = day_label ev /\ item = make_item ev).
Proof.
  revert grouped. induction events as [|x events IH]; intros grouped.
  - cbn [fold_left]. intros H1 H2. left. exists items. split; assumption.
  - cbn [fold_left]. intros H1 H2.
    destruct (IH _ H1 H2) as [(its & H3 & H4)|(ev & H3 & H4)].
    + destruct (grouped_append_in _ _ _ _ _ _ H3 H4) as [H5|[-> ->]].
      * left. exact H5.
      * right. exists x. split; [left; reflexivity | split; reflexivity].
    + right. exists ev. split; [right; exact H3 | exact H4].
Qed.

(** C8, amended. Every item of the grouping is the item of an input event,
    filed under that event's day, and carries the start and the end
    formatted as [%H:%M], for all-day and for timed events alike; for an
    all-day event of the normalizer both read 00:00.  The dash for all-day
    events is what the template shows in place of the two strings. *)
Theorem grouped_items_carry_clock_times :
  (forall events tz label items item,
     In (label, items) (group_by_day events tz) -> In item items ->
     exists ev,
       In ev events /\ label = day_label ev /\ item = make_item ev /\
       item_start_str item = strftime_HM (local (ev_start ev)) /\
       item_end_str item = strftime_HM (local (ev_end ev)) /\
       item_is_all_day item = ev_is_all_day ev /\
       template_time item =
       if ev_is_all_day ev then "—"
       else strftime_HM (local (ev_start ev)) +:+ "–" +:+
            strftime_HM (local (ev_end ev))) /\
  (forall tz calendar_name c ev,
     parse_component tz calendar_name c = Ok (Some ev) ->
     ev_is_all_day ev = true ->
     item_start_str (make_item ev) = "00:00" /\
     item_end_str (make_item ev) = "00:00").
Proof.
  split.
  - intros events tz label items item H1 H2.
    destruct (group_by_day_items_from [] events label items item H1 H2)
      as [(its & [] & _)|(ev & Hin & -> & ->)].
    exists ev. repeat split; try assumption.
    unfold template_time, make_item. cbn [item_is_all_day item_start_str
                                           item_end_str].
    destruct (ev_is_all_day ev); reflexivity.
  - intros tz calendar_name c ev Hp Hall.
    unfold parse_component in Hp.
    destruct (negb (String.eqb (name c) "VEVENT")); [discriminate|].
    destruct (DTSTART c) as [dtstart|]; [|discriminate].
    destruct dtstart as [d|n|a];
      destruct (DTEND c) as [[d'|n'|a']|];
      cbn [normalize_times] in Hp; inversion Hp; subst ev;
      cbn [ev_is_all_day] in Hall; try discriminate Hall;
      unfold make_item; cbn [item_start_str item_end_str ev_start ev_end];
      unfold dt_add, localize; cbn [local];
      rewrite ?add_timedelta_days
        by (unfold valid_naive, combine_min; simpl; lia);
      split; reflexivity.
Qed.

Lemma grouped_items_carry_clock_times_witness :
  item_start_str (make_item holiday) = "00:00" /\
  item_end_str (make_item holiday) = "00:00".
Proof.
  exact (proj2 grouped_items_carry_clock_times UTC "Home" holiday_no_end
           holiday holiday_parsed eq_refl).
Defined.

(** ** The feed loop *)

(** What the network or the parser raises reaches the caller of
    [parse_ics]. *)
Lemma parse_ics_fetch_error web url tz calendar_name msg :
  web url = Raise msg -> parse_ics web url tz calendar_name = Raise msg.
Proof. intros H. unfold parse_ics. rewrite H. reflexivity. Qed.

Lemma feed_step_events web tz start end_ st cal :
  events_of (feed_step web tz start end_ st cal) =
  events_of st ++ contribution web tz start end_ cal.
Proof.
  unfold feed_step, contribution.
  destruct (cal_ics_url cal) as [url|]; cbn [events_of].
  - destruct (parse_ics web url tz (cal_name cal)); cbn [events_of];
      rewrite ?app_nil_r; reflexivity.
  - rewrite app_nil_r. reflexivity.
Qed.

Lemma fold_feed_step_events web tz start end_ calendars st :
  events_of (fold_left (feed_step web tz start end_) calendars st) =
  events_of st ++ concat (map (contribution web tz start end_) calendars).
Proof.
  revert st. induction calendars as [|cal calendars IH]; intros st.
  - simpl. rewrite app_nil_r. reflexivity.
  - cbn [fold_left map concat]. rewrite IH, feed_step_events, <- app_assoc.
    reflexivity.
Qed.

(** The list [events] after the loop: each calendar's contribution, in the
    order of the configuration. *)
Lemma feed_loop_events web tz start end_ calendars :
  events_of (feed_loop web tz start end_ calendars) =
  concat (map (contribution web tz start end_) calendars).
Proof. unfold feed_loop. rewrite fold_feed_step_events. reflexivity. Qed.

Lemma feed_step_stderr_mono web tz start end_ st cal line :
  In line (stderr_of st) ->
  In line (stderr_of (feed_step web tz start end_ st cal)).
Proof.
  intros H. unfold feed_step.
  destruct (cal_ics_url cal) as [url|]; cbn [stderr_of].
  - destruct (parse_ics web url tz (cal_name cal)); cbn [stderr_of];
      rewrite ?in_app_iff; auto.
  - rewrite in_app_iff. auto.
Qed.

Lemma fold_feed_step_stderr_mono web tz start end_ calendars st line :
  In line (stderr_of st) ->
  In line (stderr_of (fold_left (feed_step web tz start end_) calendars st)).
Proof.
  revert st. induction calendars as [|cal calendars IH]; intros st H.
  - exact H.
  - cbn [fold_left]. apply IH, feed_step_stderr_mono, H.
Qed.

(** C9. A feed whose fetch or parse raises adds no event and one warning
    that names it; the list of events is the one obtained without that
    feed, so every in-window event of every other feed is in it, and is
    represented in the deduplicated output. *)
Theorem failed_feed_is_isolated (web : feeds) (tz : tzinfo)
    (start end_ : datetime) (pre post : list calendar_cfg)
    (cal : calendar_cfg) (url msg : string) :
  cal_ics_url cal = Some url ->
  parse_ics web url tz (cal_name cal) = Raise msg ->
  contribution web tz start end_ cal = [] /\
  events_of (feed_loop web tz start end_ (pre ++ cal :: post)) =
  events_of (feed_loop web tz start end_ (pre ++ post)) /\
  In ("[WARN] Calendar '" +:+ cal_name cal +:+ "' failed: " +:+ msg)
     (stderr_of (feed_loop web tz start end_ (pre ++ cal :: post))) /\
  (forall other url' evs ev,
     In other (pre ++ post) ->
     cal_ics_url other = Some url' ->
     parse_ics web url' tz (cal_name other) = Ok evs ->
     In ev evs -> within_range ev start end_ = true ->
     In ev (events_of (feed_loop web tz start end_ (pre ++ cal :: post))) /\
     exists kept,
       In kept (dedupe_and_sort
                  (events_of (feed_loop web tz start end_
                                (pre ++ cal :: post)))) /\
       key_of kept = key_of ev).
Proof.
  intros Hurl Hfail.
  assert (Hnone : contribution web tz start end_ cal = []).
  { unfold contribution. rewrite Hurl, Hfail. reflexivity. }
  assert (Hsame :
    events_of (feed_loop web tz start end_ (pre ++ cal :: post)) =
    events_of (feed_loop web tz start end_ (pre ++ post))).
  { rewrite !feed_loop_events, !map_app, !concat_app.
    cbn [map concat]. rewrite Hnone. reflexivity. }
  split; [exact Hnone|]. split; [exact Hsame|]. split.
  - unfold feed_loop. rewrite fold_left_app. cbn [fold_left].
    apply fold_feed_step_stderr_mono.
    unfold feed_step at 1. rewrite Hurl, Hfail. cbn [stderr_of].
    rewrite in_app_iff. right. left. reflexivity.
  - intros other url' evs ev Hin Hurl' Hok Hev Hwin.
    assert (Hevents :
      In ev (events_of (feed_loop web tz start end_ (pre ++ cal :: post)))).
    { rewrite Hsame, feed_loop_events. apply in_concat.
      exists (contribution web tz start end_ other). split.
      - apply in_map. exact Hin.
      - unfold contribution. rewrite Hurl', Hok.
        apply List.filter_In. split; assumption. }
    split; [exact Hevents|].
    apply dedupe_and_sort_keeps_key. exact Hevents.
Qed.

Example sample_loop :
  feed_loop sample_web UTC jan4_start jan4_end [calendar_b; calendar_a] =
  {| events_of :=
       [ {| ev_title := "Standup";
            ev_start := jan4_utc 9 0; ev_end := jan4_utc 10 0;
            ev_is_all_day := false; ev_location := "Room 2";
            ev_calendar_name := "A" |};
         {| ev_title := "(Bez názvu)";
            ev_start := jan4_utc 0 0;
            ev_end := {| local := combine_min (ymd2ord 2024 1 5);
                         utcoffset := 0 |};
            ev_is_all_day := true; ev_location := "";
            ev_calendar_name := "A" |} ];
     stderr_of :=
       ["[WARN] Calendar 'B' failed: 503 Server Error: Service Unavailable"]
  |}.
Proof. vm_compute. reflexivity. Qed.

Lemma failed_feed_is_isolated_witness :
  events_of (feed_loop sample_web UTC jan4_start jan4_end
               ([] ++ calendar_b :: [calendar_a])) =
  events_of (feed_loop sample_web UTC jan4_start jan4_end
               ([] ++ [calendar_a])) /\
  In ("[WARN] Calendar '" +:+ cal_name calendar_b +:+ "' failed: " +:+
      "503 Server Error: Service Unavailable")
     (stderr_of (feed_loop sample_web UTC jan4_start jan4_end
                   ([] ++ calendar_b :: [calendar_a]))).
Proof.
  destruct (failed_feed_is_isolated sample_web UTC jan4_start jan4_end
              [] [calendar_a] calendar_b "https://example.org/b.ics"
              "503 Server Error: Service Unavailable" eq_refl eq_refl)
    as (_ & Hsame & Hwarn & _).
  split; [exact Hsame | exact Hwarn].
Defined.

(** ** More on [parse_ics] *)

Lemma parse_components_from tz cn comps : forall events,
  parse_components tz cn comps events =
  match parse_components tz cn comps [] with
  | Ok made => Ok (events ++ made)
  | Raise msg => Raise msg
  end.
Proof.
  induction comps as [|c comps IH]; intros events; cbn [parse_components].
  - rewrite app_nil_r. reflexivity.
  - destruct (parse_component tz cn c) as [r|msg]; cbn [bind];
      [|reflexivity].
    rewrite IH. rewrite (IH (match r with Some ev => [] ++ [ev] | None => [] end)).
    destruct (parse_components tz cn comps []) as [made|msg]; [|reflexivity].
    destruct r as [ev|]; [|reflexivity].
    rewrite <- app_assoc. reflexivity.
Qed.

Lemma parse_component_skips tz cn c :
  is_vevent c = false -> parse_component tz cn c = Ok None.
Proof.
  unfold is_vevent, parse_component. intros ->. reflexivity.
Qed.

Lemma parse_component_makes tz cn c :
  is_vevent c = true -> DTSTART c <> None ->
  exists ev, parse_component tz cn c = Ok (Some ev).
Proof.
  unfold is_vevent. intros Hn Hs.
  destruct (DTSTART c) as [dtstart|] eqn:E; [|congruence].
  apply String.eqb_eq in Hn.
  rewrite (parse_component_vevent tz cn c dtstart Hn E). eexists. reflexivity.
Qed.

(** X1. When every VEVENT component has a DTSTART, [parse_ics] returns one
    event for each VEVENT component, in the order of the components; the
    other components leave no trace. *)
Theorem parse_ics_one_event_per_vevent (web : feeds) (url : string)
    (tz : tzinfo) (calendar_name : string) (comps : list Component) :
  web url = Ok comps ->
  (forall c, In c comps -> is_vevent c = true -> DTSTART c <> None) ->
  exists evs,
    parse_ics web url tz calendar_name = Ok evs /\
    Forall2 (fun c ev => parse_component tz calendar_name c = Ok (Some ev))
      (List.filter is_vevent comps) evs.
Proof.
  intros Hweb Hall. unfold parse_ics. rewrite Hweb. cbn [bind].
  clear Hweb. induction comps as [|c comps IH].
  - exists []. split; [reflexivity | constructor].
  - destruct IH as (evs & Hp & Hf).
    { intros c' Hin. apply Hall. right. exact Hin. }
    cbn [parse_components List.filter].
    destruct (is_vevent c) eqn:Hv.
    + destruct (parse_component_makes tz calendar_name c Hv
                  (Hall c (or_introl eq_refl) Hv)) as (ev & Hev).
      rewrite Hev. cbn [bind]. rewrite parse_components_from, Hp.
      exists (ev :: evs). split; [reflexivity|].
      constructor; assumption.
    + rewrite (parse_component_skips tz calendar_name c Hv). cbn [bind].
      exists evs. split; assumption.
Qed.

Lemma parse_ics_one_event_per_vevent_witness :
  exists evs,
    parse_ics (fun _ => Ok mixed_feed) "u" UTC "A" = Ok evs /\
    Forall2 (fun c ev => parse_component UTC "A" c = Ok (Some ev))
      [standup_no_end; holiday_no_end] evs.
Proof.
  apply (parse_ics_one_event_per_vevent (fun _ => Ok mixed_feed) "u" UTC "A"
           mixed_feed eq_refl).
  intros c [<-|[<-|[<-|[<-|[]]]]]; simpl; intros; discriminate.
Defined.

Lemma str_or_nonempty s default : default <> "" -> str_or s default <> "".
Proof.
  unfold str_or. destruct (String.eqb_spec s ""); intros; assumption.
Qed.

(** X3. Every event of [parse_ics] bears the calendar name it was asked
    for and a title that is not empty: the summary, or the placeholder when
    the summary is absent or empty; its location is the LOCATION text, empty
    when absent. *)
Theorem parsed_event_texts (tz : tzinfo) (calendar_name : string)
    (c : Component) (ev : Event) :
  parse_component tz calendar_name c = Ok (Some ev) ->
  ev_calendar_name ev = calendar_name /\
  ev_title ev <> "" /\
  (SUMMARY c = None \/ SUMMARY c = Some "" -> ev_title ev = "(Bez názvu)") /\
  (forall s, SUMMARY c = Some s -> s <> "" -> ev_title ev = s) /\
  ev_location ev = safe_str (LOCATION c).
Proof.
  unfold parse_component.
  destruct (negb (String.eqb (name c) "VEVENT")); [discriminate|].
  destruct (DTSTART c) as [dtstart|]; [|discriminate].
  destruct (normalize_times tz dtstart (DTEND c)) as [[s e] a].
  intros H. inversion H; subst ev; clear H.
  cbn [ev_calendar_name ev_title ev_location].
  split; [reflexivity|]. split; [|split; [|split]].
  - apply str_or_nonempty. discriminate.
  - intros [->| ->]; reflexivity.
  - intros t -> Ht. cbn [safe_str]. unfold str_or.
    destruct (String.eqb_spec t ""); [contradiction | reflexivity].
  - unfold str_or. destruct (String.eqb_spec (safe_str (LOCATION c)) "");
      congruence.
Qed.

Lemma parsed_event_texts_witness :
  exists ev,
    parse_component UTC "A" untitled_floating = Ok (Some ev) /\
    ev_calendar_name ev = "A" /\ ev_title ev = "(Bez názvu)" /\
    ev_location ev = "Room 2".
Proof.
  eexists. split; [reflexivity|].
  destruct (parsed_event_texts UTC "A" untitled_floating _ eq_refl)
    as (Hc & _ & Ht & _ & Hl).
  split; [exact Hc|]. split; [apply Ht; right; reflexivity | exact Hl].
Defined.

(** X4. A floating start keeps its wall-clock reading: when the zone, asked
    at the instant [localize] chose, reports the offset [localize] chose
    (every reading that exists on the zone's clock), the event starts at
    that very reading in the target zone. *)
Theorem floating_start_keeps_wall_clock (tz : tzinfo) (calendar_name : string)
    (c : Component) (n : naive) :
  name c = "VEVENT" -> DTSTART c = Some (Floating n) -> valid_naive n ->
  tz_utcoffset_at tz (timestamp n - tz_localize_utcoffset tz n) =
  tz_localize_utcoffset tz n ->
  exists ev,
    parse_component tz calendar_name c = Ok (Some ev) /\
    ev_start ev = localize tz n /\ ev_is_all_day ev = false.
Proof.
  intros Hn Hs Hv Hz.
  rewrite (parse_component_vevent tz calendar_name c _ Hn Hs).
  eexists. split; [reflexivity|]. cbn [ev_start ev_is_all_day].
  cbn [normalize_times fst snd to_aware]. split; [|reflexivity].
  unfold astimezone, localize. cbn [local utcoffset]. rewrite Hz.
  f_equal.
  replace (timestamp n - tz_localize_utcoffset tz n +
           tz_localize_utcoffset tz n) with (timestamp n) by lia.
  apply of_timestamp_timestamp. exact Hv.
Qed.

Lemma floating_start_keeps_wall_clock_witness :
  exists ev,
    parse_component (fixed_zone 3600) "A" untitled_floating = Ok (Some ev) /\
    ev_start ev = {| local := mknaive (ymd2ord 2024 1 4) 9 0 0 0;
                     utcoffset := 3600 |} /\
    ev_is_all_day ev = false.
Proof.
  apply (floating_start_keeps_wall_clock (fixed_zone 3600) "A"
           untitled_floating (mknaive (ymd2ord 2024 1 4) 9 0 0 0)
           eq_refl eq_refl).
  - unfold valid_naive. simpl. lia.
  - reflexivity.
Defined.

(** X5. The start and the end of a timed event are readings of the target
    zone's clock: each carries the offset the zone reports at its instant,
    with hour, minute and second in range, whatever zone the feed used. *)
Theorem timed_event_in_target_zone (tz : tzinfo) (calendar_name : string)
    (c : Component) (ev : Event) :
  parse_component tz calendar_name c = Ok (Some ev) ->
  ev_is_all_day ev = false ->
  Forall (fun t =>
            utcoffset t =
            tz_utcoffset_at tz (timestamp (local t) - utcoffset t) /\
            0 <= nd_hour (local t) < 24 /\
            0 <= nd_minute (local t) < 60 /\
            0 <= nd_second (local t) < 60)
    [ev_start ev; ev_end ev].
Proof.
  assert (Hz : forall a,
    utcoffset (astimezone tz a) =
    tz_utcoffset_at tz (timestamp (local (astimezone tz a)) -
                        utcoffset (astimezone tz a))
    /\ 0 <= nd_hour (local (astimezone tz a)) < 24
    /\ 0 <= nd_minute (local (astimezone tz a)) < 60
    /\ 0 <= nd_second (local (astimezone tz a)) < 60).
  { intros a. unfold astimezone. cbn [local utcoffset].
    rewrite timestamp_of_timestamp. split; [f_equal; lia|].
    destruct (of_timestamp_valid
                (timestamp (local a) - utcoffset a +
                 tz_utcoffset_at tz (timestamp (local a) - utcoffset a))
                0 ltac:(lia)) as (Hh & Hm & Hs & _).
    cbn [of_timestamp nd_hour nd_minute nd_second] in *. tauto. }
  unfold parse_component.
  destruct (negb (String.eqb (name c) "VEVENT")); [discriminate|].
  destruct (DTSTART c) as [dtstart|]; [|discriminate].
  destruct dtstart as [d|n|a]; destruct (DTEND c) as [e|];
    cbn [normalize_times]; try destruct e as [d'|n'|a'];
    intros H; inversion H; subst ev; clear H;
    cbn [ev_is_all_day ev_start ev_end]; intros Hall;
    try discriminate Hall;
    repeat constructor; apply Hz.
Qed.

Lemma timed_event_in_target_zone_witness :
  exists ev,
    parse_component st_johns_2010 "Ops" (night_occurrence "Check" 3 0 0) =
    Ok (Some ev) /\
    utcoffset (ev_start ev) =
    tz_utcoffset_at st_johns_2010
      (timestamp (local (ev_start ev)) - utcoffset (ev_start ev)).
Proof.
  eexists. split; [reflexivity|].
  pose proof (timed_event_in_target_zone st_johns_2010 "Ops"
                (night_occurrence "Check" 3 0 0) _ eq_refl eq_refl) as F.
  inversion F as [|? ? Hs _]. exact (proj1 Hs).
Defined.

(** ** More on [dedupe_and_sort] *)

Lemma first_occurrences_keys_nodup events :
  NoDup (map key_of (first_occurrences events)).
Proof.
  induction events as [|x events IH] using rev_ind.
  - constructor.
  - rewrite first_occurrences_snoc. case_decide as Hk; [exact IH|].
    rewrite map_app. cbn [map]. apply NoDup_app.
    split; [exact IH|]. split; [|apply NoDup_singleton].
    intros k Hin Hx. apply list_elem_of_singleton in Hx. subst k.
    apply Hk. apply elem_of_keys.
    apply list_elem_of_In, in_map_iff in Hin. destruct Hin as (e & He & Hin).
    exists e. split; [|exact He].
    apply first_occurrences_incl. exact Hin.
Qed.

Lemma first_occurrences_distinct events :
  NoDup (map key_of events) -> first_occurrences events = events.
Proof.
  induction events as [|x events IH] using rev_ind; [reflexivity|].
  rewrite map_app. cbn [map]. intros Hnd.
  apply NoDup_app in Hnd. destruct Hnd as (Hnd & Hx & _).
  rewrite first_occurrences_snoc. case_decide as Hk.
  - exfalso. apply elem_of_keys in Hk. destruct Hk as (e & He & Hk).
    apply (Hx (key_of x)); [|apply list_elem_of_singleton; reflexivity].
    apply list_elem_of_In, in_map_iff. exists e. auto.
  - rewrite (IH Hnd). reflexivity.
Qed.

Lemma insert_sorted_last x l :
  Forall (fun y => start_title_le y x) l -> insert_sorted x l = l ++ [x].
Proof.
  induction 1 as [|y l Hy _ IH]; [reflexivity|].
  cbn [insert_sorted app]. apply sort_key_ltb_false in Hy. rewrite Hy, IH.
  reflexivity.
Qed.

Lemma fold_insert_sorted l : forall acc,
  StronglySorted start_title_le (acc ++ l) ->
  fold_left (fun acc x => insert_sorted x acc) l acc = acc ++ l.
Proof.
  induction l as [|x l IH]; intros acc Hs.
  - rewrite app_nil_r. reflexivity.
  - cbn [fold_left]. rewrite insert_sorted_last.
    + rewrite IH; rewrite <- app_assoc; [reflexivity | exact Hs].
    + apply List.Forall_forall. intros y Hy.
      destruct (in_split _ _ Hy) as (l1 & l2 & ->).
      rewrite <- app_assoc in Hs. cbn [app] in Hs.
      exact (strongly_sorted_pair _ _ _ _ _ _ Hs).
Qed.

Lemma sort_events_sorted l :
  StronglySorted start_title_le l -> sort_events l = l.
Proof. intros Hs. exact (fold_insert_sorted l [] Hs). Qed.

Lemma dedupe_and_sort_keys_nodup events :
  NoDup (map key_of (dedupe_and_sort events)).
Proof.
  unfold dedupe_and_sort.
  rewrite (Permutation_map key_of (proj1 (sort_events_spec _))).
  apply first_occurrences_keys_nodup.
Qed.

(** X6. Running [dedupe_and_sort] on its own output changes nothing. *)
Theorem dedupe_and_sort_idempotent (events : list Event) :
  dedupe_and_sort (dedupe_and_sort events) = dedupe_and_sort events.
Proof.
  unfold dedupe_and_sort at 1.
  change (dedupe_loop (dedupe_and_sort events) ∅ [])
    with (first_occurrences (dedupe_and_sort events)).
  rewrite (first_occurrences_distinct _ (dedupe_and_sort_keys_nodup events)).
  apply sort_events_sorted. apply sort_events_spec.
Qed.

(** X7. No two events of the output of [dedupe_and_sort] have the same
    [(title, start, end, calendar_name)]; every output event is an input
    event, every input event has an output event with its key, and the
    output is no longer than the input. *)
Theorem dedupe_and_sort_distinct_keys (events : list Event) :
  NoDup (map key_of (dedupe_and_sort events)) /\
  (forall ev, In ev (dedupe_and_sort events) -> In ev events) /\
  (forall ev, In ev events ->
     exists kept, In kept (dedupe_and_sort events) /\
                  key_of kept = key_of ev) /\
  (length (dedupe_and_sort events) <= length events)%nat.
Proof.
  assert (Hin : forall ev, In ev (dedupe_and_sort events) -> In ev events).
  { intros ev H. apply first_occurrences_incl.
    exact (Permutation_in _ (proj1 (sort_events_spec _)) H). }
  split; [apply dedupe_and_sort_keys_nodup|]. split; [exact Hin|]. split.
  - intros ev. apply dedupe_and_sort_keeps_key.
  - rewrite <- (length_map key_of (dedupe_and_sort events)).
    rewrite <- (length_map key_of events).
    apply NoDup_incl_length;
      [apply NoDup_ListNoDup, dedupe_and_sort_keys_nodup|].
    intros k Hk. apply in_map_iff in Hk. destruct Hk as (e & <- & He).
    apply in_map, Hin, He.
Qed.

(** X8. When the keys of the input are pairwise distinct, nothing is
    dropped: the output is the input, reordered. *)
Theorem dedupe_and_sort_distinct_input (events : list Event) :
  NoDup (map key_of events) ->
  Permutation (dedupe_and_sort events) events.
Proof.
  intros Hnd. unfold dedupe_and_sort.
  change (dedupe_loop events ∅ []) with (first_occurrences events).
  rewrite (first_occurrences_distinct events Hnd).
  apply sort_events_spec.
Qed.

Lemma dedupe_and_sort_distinct_input_witness :
  Permutation (dedupe_and_sort [review; standup "B"; standup "A"])
    [review; standup "B"; standup "A"].
Proof.
  apply (dedupe_and_sort_distinct_input [review; standup "B"; standup "A"]).
  apply (bool_decide_unpack _). vm_compute. exact I.
Defined.

Lemma same_sort_key_le k x y :
  same_sort_key k x = true -> same_sort_key k y = true ->
  start_title_le x y.
Proof.
  unfold same_sort_key, dt_eqb, start_title_le.
  rewrite !andb_true_iff, !Z.eqb_eq, !String.eqb_eq.
  intros [Hx Tx] [Hy Ty]. right. split; [lia|].
  rewrite <- Tx, <- Ty, string_leb_ltb, string_ltb_irrefl. reflexivity.
Qed.

Lemma insert_sorted_ties k x l :
  StronglySorted start_title_le l ->
  List.filter (same_sort_key k) (insert_sorted x l) =
  List.filter (same_sort_key k) l ++ List.filter (same_sort_key k) [x].
Proof.
  induction 1 as [|y l Hs IH Hy]; [reflexivity|].
  cbn [insert_sorted]. destruct (sort_key_ltb x y) eqn:E.
  - cbn [List.filter]. destruct (same_sort_key k x) eqn:Kx;
      [|rewrite app_nil_r; reflexivity].
    assert (Hnone : forall z, In z (y :: l) -> same_sort_key k z = false).
    { intros z Hz. destruct (same_sort_key k z) eqn:Kz; [|reflexivity].
      exfalso.
      assert (Hyz : start_title_le y z).
      { destruct Hz as [<-|Hz].
        - apply sort_key_ltb_le in E.
          exact (start_title_le_trans _ _ _
                   (same_sort_key_le k _ _ Kz Kx) E).
        - rewrite List.Forall_forall in Hy. apply Hy, Hz. }
      pose proof (start_title_le_trans _ _ _ Hyz
                    (same_sort_key_le k _ _ Kz Kx)) as Hyx.
      apply sort_key_ltb_false in Hyx. congruence. }
    rewrite (Hnone y (or_introl eq_refl)).
    replace (List.filter (same_sort_key k) l) with (@nil Event);
      [reflexivity|].
    symmetry. clear - Hnone. induction l as [|z l IH]; [reflexivity|].
    cbn [List.filter]. rewrite (Hnone z (or_intror (or_introl eq_refl))).
    apply IH. intros w [<-|Hw]; apply Hnone; [left | right; right]; auto.
  - cbn [List.filter]. rewrite IH.
    destruct (same_sort_key k y); reflexivity.
Qed.

Lemma fold_insert_sorted_ties k l : forall acc,
  StronglySorted start_title_le acc ->
  List.filter (same_sort_key k)
    (fold_left (fun acc x => insert_sorted x acc) l acc) =
  List.filter (same_sort_key k) acc ++ List.filter (same_sort_key k) l.
Proof.
  induction l as [|x l IH]; intros acc Hs.
  - rewrite app_nil_r. reflexivity.
  - cbn [fold_left]. rewrite (IH _ (insert_sorted_sorted x acc Hs)).
    rewrite (insert_sorted_ties k x acc Hs), <- app_assoc.
    f_equal. cbn [List.filter]. destruct (same_sort_key k x); reflexivity.
Qed.

(** X9. The sort is stable: events that tie on (start, title) leave
    [dedupe_and_sort] in the order in which the loop kept them, whatever
    calendar or end they have. *)
Theorem dedupe_and_sort_stable (events : list Event) (k : Event) :
  List.filter (same_sort_key k) (dedupe_and_sort events) =
  List.filter (same_sort_key k) (first_occurrences events).
Proof.
  unfold dedupe_and_sort, sort_events.
  rewrite fold_insert_sorted_ties by constructor. reflexivity.
Qed.

(** ** More on [group_by_day] *)

Lemma filter_filter_implied {A} (p q : A -> bool) l :
  (forall x, p x = true -> q x = true) ->
  List.filter p (List.filter q l) = List.filter p l.
Proof.
  intros Hpq. induction l as [|x l IH]; [reflexivity|].
  cbn [List.filter]. destruct (q x) eqn:Q; cbn [List.filter].
  - rewrite IH. reflexivity.
  - destruct (p x) eqn:P; [|exact IH].
    rewrite (Hpq x P) in Q. discriminate.
Qed.

Lemma filter_on_off_day k l :
  List.filter (on_day k) (List.filter (off_day k) l) = [].
Proof.
  induction l as [|x l IH]; [reflexivity|].
  cbn [List.filter]. unfold off_day at 1.
  destruct (on_day k x) eqn:E; cbn [negb List.filter]; [exact IH|].
  rewrite E. exact IH.
Qed.

Lemma on_off_day_perm k l :
  Permutation (List.filter (on_day k) l ++ List.filter (off_day k) l) l.
Proof.
  induction l as [|x l IH]; [reflexivity|].
  cbn [List.filter]. unfold off_day at 1.
  destruct (on_day k x); cbn [negb app].
  - apply perm_skip, IH.
  - rewrite <- Permutation_middle. apply perm_skip, IH.
Qed.

Lemma off_day_length k l :
  (length (List.filter (off_day k) l) <= length l)%nat.
Proof.
  induction l as [|x l IH]; [reflexivity|].
  cbn [List.filter]. destruct (off_day k x); cbn [length]; lia.
Qed.

Lemma group_by_day_days_bounded n tz :
  forall events, (length events <= n)%nat ->
  forall label items, In (label, items) (group_by_day events tz) ->
    items <> [] /\
    items = map make_item (List.filter (on_day label) events).
Proof.
  induction n as [|n IH]; intros events Hlen label items Hin.
  - destruct events; [destruct Hin | cbn [length] in Hlen; lia].
  - destruct events as [|ev l]; [destruct Hin|].
    cbn [length] in Hlen. rewrite group_by_day_cons in Hin.
    destruct Hin as [Hhead|Hin].
    + inversion Hhead; subst label items; clear Hhead.
      split; [discriminate|].
      cbn [List.filter]. unfold on_day at 2. rewrite String.eqb_refl.
      reflexivity.
    + pose proof (off_day_length (day_label ev) l) as Hoff.
      destruct (IH (List.filter (off_day (day_label ev)) l) ltac:(lia)
                  _ _ Hin) as [Hne Hitems].
      split; [exact Hne|].
      assert (Hk : label <> day_label ev).
      { intros ->. rewrite filter_on_off_day in Hitems.
        apply Hne. exact Hitems. }
      rewrite Hitems. cbn [List.filter]. unfold on_day at 2.
      apply String.eqb_neq in Hk. rewrite Hk.
      rewrite filter_filter_implied; [reflexivity|].
      intros x Hx. unfold off_day, on_day in *.
      apply String.eqb_eq in Hx. subst label.
      rewrite String.eqb_sym, Hk. reflexivity.
Qed.

Lemma group_by_day_labels_bounded n tz :
  forall events, (length events <= n)%nat ->
  NoDup (map fst (group_by_day events tz)) /\
  (forall ev, In ev events ->
     In (day_label ev) (map fst (group_by_day events tz))) /\
  Permutation (concat (map snd (group_by_day events tz)))
    (map make_item events).
Proof.
  induction n as [|n IH]; intros events Hlen.
  - destruct events; [|cbn [length] in Hlen; lia].
    split; [constructor|]. split; [intros ev []|reflexivity].
  - destruct events as [|ev l].
    { split; [constructor|]. split; [intros ev []|reflexivity]. }
    cbn [length] in Hlen. rewrite group_by_day_cons.
    pose proof (off_day_length (day_label ev) l) as Hoff.
    destruct (IH (List.filter (off_day (day_label ev)) l) ltac:(lia))
      as (Hnd & Hall & Hperm).
    cbn [map fst snd concat]. split; [|split].
    + apply NoDup_cons. split; [|exact Hnd].
      intros Hin. apply list_elem_of_In, in_map_iff in Hin.
      destruct Hin as ([label items] & Hl & Hin). cbn [fst] in Hl.
      subst label.
      destruct (group_by_day_days_bounded _ tz _ (le_n _) _ _ Hin)
        as [Hne Hitems].
      rewrite filter_on_off_day in Hitems. exact (Hne Hitems).
    + intros ev' [<-|Hin]; [left; reflexivity|].
      destruct (String.eqb_spec (day_label ev) (day_label ev')) as [E|N].
      * left. exact E.
      * right. apply Hall. apply List.filter_In. split; [exact Hin|].
        unfold off_day, on_day. apply String.eqb_neq in N. rewrite N.
        reflexivity.
    + cbn [app]. apply perm_skip. rewrite Hperm, <- map_app.
      apply Permutation_map, on_off_day_perm.
Qed.

(** X10. [group_by_day] files every event under the label of its start
    day: the labels of the mapping are pairwise distinct, every event's
    label is among them, and the list under a label holds the items of
    exactly the events with that label, in input order; no list is
    empty. *)
Theorem group_by_day_partition (events : list Event) (tz : tzinfo) :
  NoDup (map fst (group_by_day events tz)) /\
  (forall ev, In ev events ->
     In (day_label ev) (map fst (group_by_day events tz))) /\
  (forall label items, In (label, items) (group_by_day events tz) ->
     items <> [] /\
     items = map make_item (List.filter (on_day label) events)).
Proof.
  destruct (group_by_day_labels_bounded _ tz events (le_n _))
    as (Hnd & Hall & _).
  split; [exact Hnd|]. split; [exact Hall|].
  apply (group_by_day_days_bounded _ tz events (le_n _)).
Qed.

(** X11. Whatever the order of the events, the per-day lists of
    [group_by_day] together hold the items of the input events, each as
    often as in the input: grouping may reorder, it never adds, drops or
    repeats. *)
Theorem group_by_day_permutation (events : list Event) (tz : tzinfo) :
  Permutation (concat (map snd (group_by_day events tz)))
    (map make_item events).
Proof.
  exact (proj2 (proj2 (group_by_day_labels_bounded _ tz events (le_n _)))).
Qed.

(** ** More on [daterange_window] *)

(** The two windows: midnight of a first day to 23:59:59 of a last day, both
    with one [tzinfo]. *)
Lemma daterange_window_shape mode tz now start end_ title :
  daterange_window mode tz now = Ok (start, end_, title) ->
  exists d days off,
    start = {| local := mknaive d 0 0 0 0; utcoffset := off |} /\
    end_ = {| local := mknaive (d + days) 23 59 59 0; utcoffset := off |} /\
    ((mode = "daily" /\ days = 0 /\ off = tz_zone_utcoffset tz /\
      title = "Zítřejší plán – " +:+ strftime_A_dmY (mknaive d 0 0 0 0)) \/
     (mode = "weekly" /\ days = 6 /\ off = utcoffset now)).
Proof.
  unfold daterange_window.
  destruct (String.eqb_spec mode "daily") as [Hd|Hd].
  - intros H. injection H as <- <- <-.
    exists (nd_date (local (dt_add now 1 0))), 0, (tz_zone_utcoffset tz).
    rewrite (Z.add_0_r (nd_date (local (dt_add now 1 0)))).
    split; [reflexivity|]. split; [reflexivity|].
    left. repeat split; assumption.
  - destruct (String.eqb_spec mode "weekly") as [Hw|Hw]; [|discriminate].
    intros H. injection H as <- <- <-.
    set (k := (7 - weekday (local now)) mod 7).
    set (d := nd_date (local (dt_add now k 0))).
    exists d, 6, (utcoffset now).
    split; [reflexivity|]. split.
    + change (replace_time (add_timedelta (local now) k 0) 0 0 0 0)
        with (mknaive d 0 0 0 0).
      rewrite add_timedelta_days by (unfold valid_naive; cbn; lia).
      reflexivity.
    + right. repeat split; assumption.
Qed.

(** X12. The window of either mode runs from midnight of its first day to
    23:59:59 of its last day on one and the same clock: 23:59:59 long in
    daily mode, 6 days 23:59:59 long in weekly mode. *)
Theorem window_spans_whole_days (mode : string) (tz : tzinfo)
    (now start end_ : datetime) (title : string) :
  daterange_window mode tz now = Ok (start, end_, title) ->
  let days := if String.eqb mode "daily" then 0 else 6 in
  local start = mknaive (nd_date (local start)) 0 0 0 0 /\
  local end_ = mknaive (nd_date (local start) + days) 23 59 59 0 /\
  utcoffset start = utcoffset end_ /\
  dt_sub end_ start = (days * 86400 + 86399) * 1000000.
Proof.
  intros H days.
  destruct (daterange_window_shape _ _ _ _ _ _ H)
    as (d & n & off & -> & -> & Hmode).
  assert (Hn : n = days).
  { subst days. destruct Hmode as [(-> & -> & _)|(-> & -> & _)]; reflexivity. }
  subst n. cbn [local utcoffset nd_date].
  repeat split. unfold dt_sub, instant, timestamp. cbn. lia.
Qed.

Lemma window_spans_whole_days_witness :
  exists start end_,
    daterange_window "weekly" (fixed_zone 3600) wednesday_afternoon =
    Ok (start, end_, "Týdenní plán – 08.01.–14.01.2024") /\
    dt_sub end_ start = (6 * 86400 + 86399) * 1000000.
Proof.
  eexists. eexists. split; [reflexivity|].
  exact (proj2 (proj2 (proj2
           (window_spans_whole_days "weekly" (fixed_zone 3600)
              wednesday_afternoon _ _ _ eq_refl)))).
Defined.

(** X13. The last second of the window is outside it: an event that starts
    at 23:59:59 of the last day is dropped by [within_range], whatever its
    end, while one that starts a second earlier and ends after its start is
    kept. *)
Theorem window_excludes_last_second (mode : string) (tz : tzinfo)
    (now start end_ : datetime) (title : string) (ev : Event)
    (second us : Z) :
  daterange_window mode tz now = Ok (start, end_, title) ->
  local (ev_start ev) = mknaive (nd_date (local end_)) 23 59 second us ->
  utcoffset (ev_start ev) = utcoffset end_ ->
  0 <= us < 1000000 ->
  (second = 59 -> within_range ev start end_ = false) /\
  (second = 58 -> instant (ev_start ev) < instant (ev_end ev) ->
   within_range ev start end_ = true).
Proof.
  intros H Hl Ho Hus.
  destruct (daterange_window_shape _ _ _ _ _ _ H)
    as (d & n & off & -> & -> & Hmode).
  assert (Hn : 0 <= n) by (destruct Hmode as [(_ & -> & _)|(_ & -> & _)]; lia).
  cbn [local utcoffset nd_date] in Hl, Ho.
  unfold within_range, dt_leb, dt_geb, instant.
  rewrite Hl, Ho. unfold timestamp. cbn [local utcoffset nd_date nd_hour
    nd_minute nd_second nd_microsecond].
  split.
  - intros ->. apply negb_false_iff, orb_true_iff. right.
    apply Z.leb_le. lia.
  - intros -> Hlt.
    apply negb_true_iff, orb_false_iff. split.
    + apply Z.leb_gt. unfold timestamp in *. lia.
    + apply Z.leb_gt. lia.
Qed.

Lemma window_excludes_last_second_witness :
  within_range reminder_at_end
    {| local := mknaive (ymd2ord 2024 1 4) 0 0 0 0; utcoffset := 0 |}
    jan4_end = false.
Proof.
  refine (proj1 (window_excludes_last_second "daily" UTC
                   {| local := mknaive (ymd2ord 2024 1 3) 15 30 12 0;
                      utcoffset := 0 |}
                   _ jan4_end _ reminder_at_end 59 0 eq_refl eq_refl eq_refl
                   _) eq_refl).
  lia.
Defined.

(** X14. In daily mode the title names the day under which
    [group_by_day] files the events of the window: an event on the window's
    clock that is kept by [within_range] and does not start before the
    window bears the day label printed in the title. *)
Theorem daily_title_names_the_day (tz : tzinfo) (now start end_ : datetime)
    (title : string) (ev : Event) :
  daterange_window "daily" tz now = Ok (start, end_, title) ->
  utcoffset (ev_start ev) = tz_zone_utcoffset tz ->
  valid_naive (local (ev_start ev)) ->
  within_range ev start end_ = true ->
  instant start <= instant (ev_start ev) ->
  title = "Zítřejší plán – " +:+ day_label ev.
Proof.
  intros H Ho Hv Hin Hge.
  destruct (daterange_window_shape _ _ _ _ _ _ H)
    as (d & n & off & -> & -> & Hmode).
  destruct Hmode as [(_ & -> & -> & ->)|(Hm & _)]; [|discriminate Hm].
  f_equal. unfold day_label. apply strftime_A_dmY_date. cbn [nd_date].
  unfold within_range, dt_leb, dt_geb in Hin.
  apply negb_true_iff, orb_false_iff in Hin. destruct Hin as [_ Hlt].
  apply Z.leb_gt in Hlt. unfold instant, timestamp in Hlt, Hge.
  rewrite Ho in Hlt, Hge.
  cbn [local utcoffset nd_date nd_hour nd_minute nd_second nd_microsecond]
    in Hlt, Hge.
  destruct Hv as (Hh & Hmi & Hs & Hus). lia.
Qed.

Lemma daily_title_names_the_day_witness :
  "Zítřejší plán – Thursday 04.01.2024" =
  "Zítřejší plán – " +:+ day_label (standup "A").
Proof.
  apply (daily_title_names_the_day UTC
           {| local := mknaive (ymd2ord 2024 1 3) 15 30 12 0;
              utcoffset := 0 |}
           {| local := mknaive (ymd2ord 2024 1 4) 0 0 0 0; utcoffset := 0 |}
           jan4_end _ (standup "A") eq_refl eq_refl).
  - unfold valid_naive. cbn. lia.
  - reflexivity.
  - vm_compute. discriminate.
Defined.

(** ** The window and the events *)

(** X15. An all-day event is kept by the window exactly on its days: with
    a zone whose [localize] gives the offset of the window's clock, the
    event of the dates [d] up to, not including, its DTEND date (the day
    after [d] when DTEND is absent or is no plain date) is kept if and only
    if one of the window's days is among them. *)
Theorem allday_event_kept_on_its_days (mode : string) (tz : tzinfo)
    (calendar_name : string) (now start end_ : datetime) (title : string)
    (c : Component) (d : date) (ev : Event) :
  daterange_window mode tz now = Ok (start, end_, title) ->
  (forall n, tz_localize_utcoffset tz n = utcoffset start) ->
  name c = "VEVENT" -> DTSTART c = Some (DateOnly d) ->
  parse_component tz calendar_name c = Ok (Some ev) ->
  let last := match DTEND c with
              | Some (DateOnly e) => e
              | _ => d + 1
              end in
  within_range ev start end_ = true <->
  d <= nd_date (local end_) /\ nd_date (local start) < last.
Proof.
  intros H Hz Hn Hs Hev last.
  destruct (daterange_window_shape _ _ _ _ _ _ H)
    as (d0 & n & off & -> & -> & Hmode).
  assert (Hn0 : 0 <= n) by (destruct Hmode as [(_ & -> & _)|(_ & -> & _)]; lia).
  cbn [local utcoffset nd_date] in *.
  rewrite (parse_component_vevent tz calendar_name c _ Hn Hs) in Hev.
  remember (normalize_times tz (DateOnly d) (DTEND c)) as times eqn:Htimes.
  injection Hev as <-.
  assert (Hstart : instant (fst (fst times)) = (d * 86400 - off) * 1000000).
  { subst times. cbn [normalize_times fst]. unfold instant, localize, timestamp, combine_min.
    cbn [local utcoffset nd_date nd_hour nd_minute nd_second nd_microsecond].
    rewrite Hz. lia. }
  assert (Hend : instant (snd (fst times)) = (last * 86400 - off) * 1000000).
  { assert (Hdef : instant (dt_add (localize tz (combine_min d)) 1 0)
                   = ((d + 1) * 86400 - off) * 1000000).
    { rewrite instant_dt_add. unfold instant, localize, timestamp, combine_min.
      cbn [local utcoffset nd_date nd_hour nd_minute nd_second
           nd_microsecond].
      rewrite Hz. lia. }
    subst last times. cbn [normalize_times fst snd].
    destruct (DTEND c) as [[e|ne|ae]|]; try exact Hdef.
    unfold instant, localize, timestamp, combine_min.
    cbn [local utcoffset nd_date nd_hour nd_minute nd_second nd_microsecond].
    rewrite Hz. lia. }
  unfold within_range, dt_leb, dt_geb. cbn [ev_start ev_end].
  rewrite Hstart, Hend. unfold instant, timestamp.
  cbn [local utcoffset nd_date nd_hour nd_minute nd_second nd_microsecond].
  rewrite negb_true_iff, orb_false_iff, !Z.leb_gt. lia.
Qed.

Lemma allday_event_kept_on_its_days_witness :
  exists ev start end_,
    parse_component (fixed_zone 3600) "Home" holiday_no_end = Ok (Some ev) /\
    daterange_window "daily" (fixed_zone 3600) wednesday_afternoon =
    Ok (start, end_, "Zítřejší plán – Thursday 04.01.2024") /\
    within_range ev start end_ = true.
Proof.
  eexists. eexists. eexists. split; [reflexivity|]. split; [reflexivity|].
  apply (allday_event_kept_on_its_days "daily" (fixed_zone 3600) "Home"
           wednesday_afternoon _ _ _ holiday_no_end (ymd2ord 2024 1 4) _
           eq_refl (fun _ => eq_refl) eq_refl eq_refl eq_refl).
  split; [apply Z.leb_le | apply Z.ltb_lt]; reflexivity.
Defined.

(** ** More on the feed loop *)

Lemma feed_step_stderr web tz start end_ st cal :
  stderr_of (feed_step web tz start end_ st cal) =
  stderr_of st ++ complaint web tz cal.
Proof.
  unfold feed_step, complaint.
  destruct (cal_ics_url cal) as [url|]; cbn [stderr_of]; [|reflexivity].
  destruct (parse_ics web url tz (cal_name cal)); cbn [stderr_of];
    rewrite ?app_nil_r; reflexivity.
Qed.

Lemma fold_feed_step_stderr web tz start end_ calendars : forall st,
  stderr_of (fold_left (feed_step web tz start end_) calendars st) =
  stderr_of st ++ concat (map (complaint web tz) calendars).
Proof.
  induction calendars as [|cal calendars IH]; intros st.
  - cbn. rewrite app_nil_r. reflexivity.
  - cbn [fold_left map concat]. rewrite IH, feed_step_stderr, <- app_assoc.
    reflexivity.
Qed.

(** X16. What the feed loop prints to [stderr] is one line for each
    calendar without [ics_url] and one warning for each calendar whose
    [parse_ics] raises, in the order of the configuration; a calendar that
    is read prints nothing, and the window plays no part. *)
Theorem feed_loop_stderr (web : feeds) (tz : tzinfo) (start end_ : datetime)
    (calendars : list calendar_cfg) :
  stderr_of (feed_loop web tz start end_ calendars) =
  concat (map (complaint web tz) calendars) /\
  (length (stderr_of (feed_loop web tz start end_ calendars))
   <= length calendars)%nat /\
  forall start' end',
    stderr_of (feed_loop web tz start' end' calendars) =
    stderr_of (feed_loop web tz start end_ calendars).
Proof.
  assert (H : forall s e,
    stderr_of (feed_loop web tz s e calendars) =
    concat (map (complaint web tz) calendars)).
  { intros s e. unfold feed_loop. rewrite fold_feed_step_stderr.
    reflexivity. }
  split; [apply H|]. split.
  - rewrite H. clear H. induction calendars as [|cal calendars IH];
      [reflexivity|].
    cbn [map concat length]. rewrite length_app.
    assert (length (complaint web tz cal) <= 1)%nat; [|lia].
    unfold complaint. destruct (cal_ics_url cal) as [url|]; [|cbn; lia].
    destruct (parse_ics web url tz (cal_name cal)); cbn; lia.
  - intros s e. rewrite !H. reflexivity.
Qed.

(** X17. A calendar without [ics_url] is skipped: the events are those of
    the configuration without it, whatever the feeds answer, and a line
    naming it is printed. *)
Theorem calendar_without_url_is_skipped (web : feeds) (tz : tzinfo)
    (start end_ : datetime) (pre post : list calendar_cfg)
    (cal : calendar_cfg) :
  cal_ics_url cal = None ->
  events_of (feed_loop web tz start end_ (pre ++ cal :: post)) =
  events_of (feed_loop web tz start end_ (pre ++ post)) /\
  stderr_of (feed_loop web tz start end_ (pre ++ cal :: post)) =
  stderr_of (feed_loop web tz start end_ pre) ++
  ("Skipping " +:+ cal_name cal +:+ ": missing ics_url") ::
  concat (map (complaint web tz) post).
Proof.
  intros Hurl. split.
  - rewrite !feed_loop_events, !map_app, !concat_app. cbn [map concat].
    unfold contribution at 2. rewrite Hurl. reflexivity.
  - unfold feed_loop. rewrite fold_left_app. cbn [fold_left].
    rewrite fold_feed_step_stderr, feed_step_stderr.
    unfold complaint at 1. rewrite Hurl, <- app_assoc. reflexivity.
Qed.

Lemma calendar_without_url_is_skipped_witness :
  events_of (feed_loop sample_web UTC jan4_start jan4_end
               ([calendar_b] ++ calendar_draft :: [calendar_a])) =
  events_of (feed_loop sample_web UTC jan4_start jan4_end
               ([calendar_b] ++ [calendar_a])) /\
  stderr_of (feed_loop sample_web UTC jan4_start jan4_end
               ([calendar_b] ++ calendar_draft :: [calendar_a])) =
  ["[WARN] Calendar 'B' failed: 503 Server Error: Service Unavailable";
   "Skipping Draft: missing ics_url"].
Proof.
  exact (calendar_without_url_is_skipped sample_web UTC jan4_start jan4_end
           [calendar_b] [calendar_a] calendar_draft eq_refl).
Defined.

Lemma parse_component_calendar_name tz calendar_name c ev :
  parse_component tz calendar_name c = Ok (Some ev) ->
  ev_calendar_name ev = calendar_name.
Proof.
  unfold parse_component.
  destruct (negb (String.eqb (name c) "VEVENT")); [discriminate|].
  destruct (DTSTART c) as [dtstart|]; [|discriminate].
  destruct (normalize_times tz dtstart (DTEND c)) as [[s e] a].
  intros H. injection H as <-. reflexivity.
Qed.

Lemma parse_components_events tz calendar_name comps : forall acc evs,
  parse_components tz calendar_name comps acc = Ok evs ->
  forall ev, In ev evs ->
    In ev acc \/
    exists c, In c comps /\ parse_component tz calendar_name c = Ok (Some ev).
Proof.
  induction comps as [|c comps IH]; intros acc evs H ev Hin.
  - injection H as <-. left. exact Hin.
  - cbn [parse_components] in H.
    destruct (parse_component tz calendar_name c) as [r|msg] eqn:E;
      cbn [bind] in H; [|discriminate].
    destruct (IH _ _ H ev Hin) as [Hacc|(c' & Hc' & Hev)].
    + destruct r as [made|]; [|left; exact Hacc].
      apply in_app_iff in Hacc. destruct Hacc as [Hacc|[<-|[]]].
      * left. exact Hacc.
      * right. exists c. split; [left; reflexivity | exact E].
    + right. exists c'. split; [right; exact Hc' | exact Hev].
Qed.

Lemma parse_ics_calendar_name web url tz calendar_name evs ev :
  parse_ics web url tz calendar_name = Ok evs -> In ev evs ->
  ev_calendar_name ev = calendar_name.
Proof.
  unfold parse_ics. destruct (web url) as [comps|msg]; cbn [bind];
    [|discriminate].
  intros H Hin.
  destruct (parse_components_events _ _ _ _ _ H ev Hin) as [[]|(c & _ & Hc)].
  exact (parse_component_calendar_name _ _ _ _ Hc).
Qed.

Lemma feed_loop_event_origin web tz start end_ calendars ev :
  In ev (events_of (feed_loop web tz start end_ calendars)) ->
  exists cal url evs,
    In cal calendars /\ cal_ics_url cal = Some url /\
    parse_ics web url tz (cal_name cal) = Ok evs /\ In ev evs /\
    within_range ev start end_ = true.
Proof.
  rewrite feed_loop_events, in_concat.
  intros (l & Hl & Hin). apply in_map_iff in Hl.
  destruct Hl as (cal & <- & Hcal). unfold contribution in Hin.
  destruct (cal_ics_url cal) as [url|] eqn:Hurl; [|destruct Hin].
  destruct (parse_ics web url tz (cal_name cal)) as [evs|msg] eqn:Hp;
    [|destruct Hin].
  apply List.filter_In in Hin. destruct Hin as [Hin Hw].
  exists cal, url, evs. auto.
Qed.

(** X18. Every event the feed loop collects overlaps the window and comes
    from a configured calendar that has a URL and was read without error;
    it bears that calendar's name. *)
Theorem feed_loop_events_sound (web : feeds) (tz : tzinfo)
    (start end_ : datetime) (calendars : list calendar_cfg) (ev : Event) :
  In ev (events_of (feed_loop web tz start end_ calendars)) ->
  within_range ev start end_ = true /\
  exists cal url evs,
    In cal calendars /\ cal_ics_url cal = Some url /\
    parse_ics web url tz (cal_name cal) = Ok evs /\ In ev evs /\
    ev_calendar_name ev = cal_name cal.
Proof.
  intros Hin.
  destruct (feed_loop_event_origin _ _ _ _ _ _ Hin)
    as (cal & url & evs & Hcal & Hurl & Hp & Hev & Hw).
  split; [exact Hw|]. exists cal, url, evs.
  repeat split; try assumption.
  exact (parse_ics_calendar_name _ _ _ _ _ _ Hp Hev).
Qed.

Lemma feed_loop_events_sound_witness :
  within_range parsed_standup jan4_start jan4_end = true.
Proof.
  apply (feed_loop_events_sound sample_web UTC jan4_start jan4_end
           [calendar_b; calendar_a] parsed_standup).
  rewrite sample_loop. cbn [events_of]. left. reflexivity.
Defined.

(** ** From the window to the grouped events *)

Lemma pipeline_ok web mode tz now calendars title grouped err :
  pipeline web mode tz now calendars = Ok (title, grouped, err) ->
  exists start end_,
    daterange_window mode tz now = Ok (start, end_, title) /\
    grouped =
      group_by_day
        (dedupe_and_sort
           (events_of (feed_loop web tz start end_ calendars))) tz /\
    err = stderr_of (feed_loop web tz start end_ calendars).
Proof.
  unfold pipeline.
  destruct (daterange_window mode tz now) as [[[start end_] title']|msg];
    cbn [bind]; [|discriminate].
  intros H. injection H as <- <- <-. exists start, end_. auto.
Qed.

Lemma dedupe_and_sort_incl events ev :
  In ev (dedupe_and_sort events) -> In ev events.
Proof.
  intros H. apply first_occurrences_incl.
  exact (Permutation_in _ (proj1 (sort_events_spec _)) H).
Qed.

Lemma group_by_day_files events tz ev :
  In ev events ->
  exists items,
    In (day_label ev, items) (group_by_day events tz) /\
    In (make_item ev) items.
Proof.
  intros Hin.
  destruct (group_by_day_labels_bounded _ tz events (le_n _))
    as (_ & Hall & _).
  pose proof (Hall ev Hin) as Hl. apply in_map_iff in Hl.
  destruct Hl as ([label items] & Hlabel & Hg). cbn [fst] in Hlabel.
  subst label. exists items. split; [exact Hg|].
  destruct (group_by_day_days_bounded _ tz events (le_n _) _ _ Hg)
    as [_ ->].
  apply in_map. apply List.filter_In. split; [exact Hin|].
  unfold on_day. apply String.eqb_refl.
Qed.

(** X19. Every item handed to the template stems from an event of a
    configured calendar that was read without error: the event overlaps the
    window, the item stands under the label of the event's start day and
    bears the calendar's name. *)
Theorem pipeline_items_sound (web : feeds) (mode : string) (tz : tzinfo)
    (now : datetime) (calendars : list calendar_cfg) (title : string)
    (grouped : list (string * list Item)) (err : list string)
    (label : string) (items : list Item) (item : Item) :
  pipeline web mode tz now calendars = Ok (title, grouped, err) ->
  In (label, items) grouped -> In item items ->
  exists start end_ cal url evs ev,
    daterange_window mode tz now = Ok (start, end_, title) /\
    In cal calendars /\ cal_ics_url cal = Some url /\
    parse_ics web url tz (cal_name cal) = Ok evs /\ In ev evs /\
    within_range ev start end_ = true /\
    label = day_label ev /\ item = make_item ev /\
    item_calendar_name item = cal_name cal.
Proof.
  intros H Hg Hi.
  destruct (pipeline_ok _ _ _ _ _ _ _ _ H) as (start & end_ & Hw & -> & _).
  unfold group_by_day in Hg.
  destruct (group_by_day_items_from _ _ _ _ _ Hg Hi)
    as [(items0 & [] & _)|(ev & Hev & -> & ->)].
  apply dedupe_and_sort_incl in Hev.
  destruct (feed_loop_event_origin _ _ _ _ _ _ Hev)
    as (cal & url & evs & Hcal & Hurl & Hp & Hin & Hrange).
  exists start, end_, cal, url, evs, ev.
  repeat split; try assumption.
  cbn [make_item item_calendar_name].
  exact (parse_ics_calendar_name _ _ _ _ _ _ Hp Hin).
Qed.

(** X20. No event of the window is lost on the way to the template: for
    every event of a calendar read without error that overlaps the window,
    an event with the same (title, start, end, calendar_name) has its item
    under the label of its start day. *)
Theorem pipeline_items_complete (web : feeds) (mode : string) (tz : tzinfo)
    (now : datetime) (calendars : list calendar_cfg) (title : string)
    (grouped : list (string * list Item)) (err : list string)
    (start end_ : datetime) (cal : calendar_cfg) (url : string)
    (evs : list Event) (ev : Event) :
  pipeline web mode tz now calendars = Ok (title, grouped, err) ->
  daterange_window mode tz now = Ok (start, end_, title) ->
  In cal calendars -> cal_ics_url cal = Some url ->
  parse_ics web url tz (cal_name cal) = Ok evs -> In ev evs ->
  within_range ev start end_ = true ->
  exists kept items,
    key_of kept = key_of ev /\
    In (day_label kept, items) grouped /\ In (make_item kept) items.
Proof.
  intros H Hw Hcal Hurl Hp Hin Hrange.
  destruct (pipeline_ok _ _ _ _ _ _ _ _ H) as (s & e & Hw' & -> & _).
  rewrite Hw in Hw'. injection Hw' as <- <-.
  assert (Hev : In ev (events_of (feed_loop web tz start end_ calendars))).
  { rewrite feed_loop_events. apply in_concat.
    exists (contribution web tz start end_ cal). split.
    - apply in_map. exact Hcal.
    - unfold contribution. rewrite Hurl, Hp.
      apply List.filter_In. split; assumption. }
  destruct (dedupe_and_sort_keeps_key _ _ Hev) as (kept & Hkept & Hk).
  destruct (group_by_day_files _ tz _ Hkept) as (items & Hg & Hi).
  exists kept, items. auto.
Qed.

Lemma group_by_day_nil events tz :
  group_by_day events tz = [] <-> events = [].
Proof.
  split; [|intros ->; reflexivity].
  destruct events as [|ev l]; [reflexivity|].
  rewrite group_by_day_cons. discriminate.
Qed.

Lemma dedupe_and_sort_nil events :
  dedupe_and_sort events = [] <-> events = [].
Proof.
  split; [|intros ->; reflexivity].
  destruct events as [|ev l]; [reflexivity|]. intros H.
  destruct (dedupe_and_sort_keeps_key (ev :: l) ev (or_introl eq_refl))
    as (kept & Hin & _).
  rewrite H in Hin. destruct Hin.
Qed.

(** X22. The mapping handed to the template is empty exactly when no
    calendar contributes an event to the window. *)
Theorem pipeline_empty_mapping (web : feeds) (mode : string) (tz : tzinfo)
    (now : datetime) (calendars : list calendar_cfg) (title : string)
    (grouped : list (string * list Item)) (err : list string)
    (start end_ : datetime) :
  pipeline web mode tz now calendars = Ok (title, grouped, err) ->
  daterange_window mode tz now = Ok (start, end_, title) ->
  (grouped = [] <->
   Forall (fun cal => contribution web tz start end_ cal = []) calendars).
Proof.
  intros H Hw.
  destruct (pipeline_ok _ _ _ _ _ _ _ _ H) as (s & e & Hw' & -> & _).
  rewrite Hw in Hw'. injection Hw' as <- <-.
  rewrite group_by_day_nil, dedupe_and_sort_nil, feed_loop_events.
  clear. induction calendars as [|cal calendars IH]; cbn [map concat].
  - split; [constructor | reflexivity].
  - split.
    + intros Happ. apply app_eq_nil in Happ. destruct Happ as [H1 H2].
      constructor; [exact H1 | apply IH, H2].
    + intros HF. inversion HF as [|? ? H1 H2]; subst.
      rewrite H1. apply IH, H2.
Qed.

Example sample_run :
  pipeline sample_web "daily" UTC wednesday_utc
    [calendar_b; calendar_draft; calendar_a] =
  Ok ("Zítřejší plán – Thursday 04.01.2024",
      [("Thursday 04.01.2024", [holiday_item; standup_item])],
      ["[WARN] Calendar 'B' failed: 503 Server Error: Service Unavailable";
       "Skipping Draft: missing ics_url"]).
Proof. vm_compute. reflexivity. Qed.

Example quiet_run :
  pipeline sample_web "weekly" UTC wednesday_utc
    [calendar_b; calendar_a] =
  Ok ("Týdenní plán – 08.01.–14.01.2024", [],
      ["[WARN] Calendar 'B' failed: 503 Server Error: Service Unavailable"]).
Proof. vm_compute. reflexivity. Qed.

Lemma pipeline_items_sound_witness :
  exists start end_ cal url evs ev,
    daterange_window "daily" UTC wednesday_utc =
    Ok (start, end_, "Zítřejší plán – Thursday 04.01.2024") /\
    In cal [calendar_b; calendar_draft; calendar_a] /\
    cal_ics_url cal = Some url /\
    parse_ics sample_web url UTC (cal_name cal) = Ok evs /\ In ev evs /\
    within_range ev start end_ = true /\
    "Thursday 04.01.2024" = day_label ev /\ standup_item = make_item ev /\
    item_calendar_name standup_item = cal_name cal.
Proof.
  exact (pipeline_items_sound sample_web "daily" UTC wednesday_utc
           [calendar_b; calendar_draft; calendar_a] _ _ _
           "Thursday 04.01.2024" [holiday_item; standup_item] standup_item
           sample_run (or_introl eq_refl) (or_intror (or_introl eq_refl))).
Defined.

Lemma pipeline_items_complete_witness :
  exists kept items,
    key_of kept = key_of parsed_standup /\
    In (day_label kept, items)
       [("Thursday 04.01.2024", [holiday_item; standup_item])] /\
    In (make_item kept) items.
Proof.
  eapply (pipeline_items_complete sample_web "daily" UTC wednesday_utc
            [calendar_b; calendar_draft; calendar_a] _ _ _
            jan4_start jan4_end calendar_a "https://example.org/a.ics"
            _ parsed_standup sample_run eq_refl).
  - right. right. left. reflexivity.
  - reflexivity.
  - reflexivity.
  - left. reflexivity.
  - reflexivity.
Defined.

Lemma pipeline_empty_mapping_witness :
  Forall (fun cal =>
            contribution sample_web UTC
              {| local := mknaive (ymd2ord 2024 1 8) 0 0 0 0;
                 utcoffset := 0 |}
              {| local := mknaive (ymd2ord 2024 1 14) 23 59 59 0;
                 utcoffset := 0 |} cal = [])
    [calendar_b; calendar_a].
Proof.
  apply (pipeline_empty_mapping sample_web "weekly" UTC wednesday_utc
           [calendar_b; calendar_a] _ _ _ _ _ quiet_run eq_refl).
  reflexivity.
Defined.

(** ** The Slack text *)

Example html_to_text_sample :
  html_to_text
    (str "<h1>Title</h1>" ++ [newline] ++ str "<p>a</p>" ++
     [newline; newline; newline] ++ str "<p>b<BR />c <br>d</P> ") =
  str "Title" ++ [newline] ++ str "a" ++ [newline; newline] ++ str "b" ++
  [newline] ++ str "c " ++ [newline] ++ str "d".
Proof. vm_compute. reflexivity. Qed.

Example html_to_text_keeps_odd_brackets :
  html_to_text (str "<>1 < 2 <> 3 > 2 <b") = str "<>1  3 > 2 <b".
Proof. vm_compute. reflexivity. Qed.

(** ** The matcher and [re.sub] *)

Lemma backtrack_some k least n s rest :
  backtrack k least n s = Some rest ->
  exists m, (least <= m <= n)%nat /\ k (skipn m s) = Some rest.
Proof.
  induction n as [|n IH]; cbn [backtrack].
  - destruct (Nat.ltb_spec 0 least) as [Hl|Hl]; [discriminate|].
    destruct (k (skipn 0 s)) as [r|] eqn:E; [|discriminate].
    intros H. injection H as ->. exists O. split; [lia | exact E].
  - destruct (Nat.ltb_spec (S n) least) as [Hl|Hl]; [discriminate|].
    destruct (k (skipn (S n) s)) as [r|] eqn:E.
    + intros H. injection H as ->. exists (S n). split; [lia | exact E].
    + intros H. destruct (IH H) as (m & Hm & Hk). exists m.
      split; [lia | exact Hk].
Qed.

Lemma backtrack_none k least n s :
  (forall m, (least <= m <= n)%nat -> k (skipn m s) = None) ->
  backtrack k least n s = None.
Proof.
  induction n as [|n IH]; intros Hk; cbn [backtrack].
  - destruct (Nat.ltb_spec 0 least) as [Hl|Hl]; [reflexivity|].
    rewrite (Hk O) by lia. reflexivity.
  - destruct (Nat.ltb_spec (S n) least) as [Hl|Hl]; [reflexivity|].
    rewrite (Hk (S n)) by lia. apply IH. intros m Hm. apply Hk. lia.
Qed.

(** The longest match comes first. *)
Lemma backtrack_longest k least n s rest :
  (least <= n)%nat -> k (skipn n s) = Some rest ->
  backtrack k least n s = Some rest.
Proof.
  intros Hl Hk. destruct n as [|n]; cbn [backtrack].
  - destruct (Nat.ltb_spec 0 least) as [Hl'|_]; [lia|].
    rewrite Hk. reflexivity.
  - destruct (Nat.ltb_spec (S n) least) as [Hl'|_]; [lia|].
    rewrite Hk. reflexivity.
Qed.

Lemma run_length c s : (run c s <= length s)%nat.
Proof.
  induction s as [|x s IH]; cbn [run length]; [lia|].
  destruct (c x); lia.
Qed.

(** The characters of the run are in the class; the one after it is not. *)
Lemma run_firstn c s n :
  (n <= run c s)%nat -> Forall (fun x => c x = true) (firstn n s).
Proof.
  revert n. induction s as [|x s IH]; intros n Hn.
  - rewrite firstn_nil. constructor.
  - destruct n as [|n]; [constructor|]. cbn [run] in Hn. cbn [firstn].
    destruct (c x) eqn:E; [|lia].
    constructor; [exact E | apply IH; lia].
Qed.

Lemma run_skipn c s :
  match skipn (run c s) s with
  | x :: _ => c x = false
  | [] => True
  end.
Proof.
  induction s as [|x s IH]; cbn [run]; [exact I|].
  destruct (c x) eqn:E; [exact IH | exact E].
Qed.

(** A match is a prefix of the text. *)
Lemma match_at_suffix p : forall s rest,
  match_at p s = Some rest -> exists m, s = m ++ rest.
Proof.
  induction p as [|[c|c|least c] p IH]; intros s rest; cbn [match_at].
  - intros H. injection H as ->. exists []. reflexivity.
  - destruct s as [|x s]; [discriminate|].
    destruct (c x); [|discriminate]. intros H.
    destruct (IH _ _ H) as (m & ->). exists (x :: m). reflexivity.
  - assert (Hsame : match_at p s = Some rest -> exists m, s = m ++ rest)
      by apply IH.
    destruct s as [|x s]; [exact Hsame|].
    destruct (c x); [|exact Hsame].
    destruct (match_at p s) as [r|] eqn:E; [|exact Hsame].
    intros H. injection H as ->.
    destruct (IH _ _ E) as (m & ->). exists (x :: m). reflexivity.
  - intros H. apply backtrack_some in H. destruct H as (n & _ & H).
    destruct (IH _ _ H) as (m & Hm). exists (firstn n s ++ m).
    rewrite <- app_assoc, <- Hm. symmetry. apply firstn_skipn.
Qed.

(** A pattern that ends with a single character matches up to such a
    character. *)
Lemma match_at_last p c : forall s rest,
  match_at (p ++ [One c]) s = Some rest ->
  exists m x, s = m ++ x :: rest /\ c x = true.
Proof.
  induction p as [|[d|d|least d] p IH]; intros s rest;
    cbn [app match_at].
  - destruct s as [|x s]; [discriminate|].
    destruct (c x) eqn:E; [|discriminate].
    intros H. injection H as ->. exists [], x. split; [reflexivity | exact E].
  - destruct s as [|x s]; [discriminate|].
    destruct (d x); [|discriminate]. intros H.
    destruct (IH _ _ H) as (m & y & -> & Hy). exists (x :: m), y.
    split; [reflexivity | exact Hy].
  - assert (Hsame : match_at (p ++ [One c]) s = Some rest ->
                    exists m x, s = m ++ x :: rest /\ c x = true)
      by apply IH.
    destruct s as [|x s]; [exact Hsame|].
    destruct (d x); [|exact Hsame].
    destruct (match_at (p ++ [One c]) s) as [r|] eqn:E; [|exact Hsame].
    intros H. injection H as ->.
    destruct (IH _ _ E) as (m & y & -> & Hy). exists (x :: m), y.
    split; [reflexivity | exact Hy].
  - intros H. apply backtrack_some in H. destruct H as (n & _ & H).
    destruct (IH _ _ H) as (m & y & Hm & Hy). exists (firstn n s ++ m), y.
    split; [|exact Hy].
    rewrite <- app_assoc, <- Hm. symmetry. apply firstn_skipn.
Qed.

Lemma consumes_one c p : consumes (One c :: p).
Proof.
  intros s rest. cbn [match_at]. destruct s as [|x s]; [discriminate|].
  destruct (c x); [|discriminate]. intros H.
  destruct (match_at_suffix _ _ _ H) as (m & ->).
  cbn [length]. rewrite length_app. lia.
Qed.

Lemma consumes_newlines : consumes NEWLINES.
Proof.
  intros s rest. unfold NEWLINES. cbn [match_at]. intros H.
  apply backtrack_some in H. destruct H as (n & Hn & H).
  cbn [match_at] in H. injection H as <-.
  pose proof (run_length (lit "010") s). rewrite length_skipn. lia.
Qed.

(** None of the four patterns matches the empty string. *)
Lemma patterns_consume :
  consumes BR /\ consumes END_P /\ consumes TAG /\ consumes NEWLINES.
Proof.
  repeat split; try apply consumes_one. apply consumes_newlines.
Qed.

Lemma sub_from_skip p repl s : forall skip,
  (skip <= length s)%nat ->
  sub_from p repl s skip = re_sub p repl (skipn skip s).
Proof.
  induction s as [|x s IH]; intros skip Hs.
  - destruct skip; reflexivity.
  - destruct skip as [|skip]; [reflexivity|].
    cbn [sub_from skipn]. apply IH. cbn [length] in Hs. lia.
Qed.

Lemma re_sub_miss p repl x s :
  match_at p (x :: s) = None ->
  re_sub p repl (x :: s) = x :: re_sub p repl s.
Proof. intros H. unfold re_sub. cbn [sub_from]. rewrite H. reflexivity. Qed.

Lemma re_sub_hit p repl s rest :
  match_at p s = Some rest -> (length rest < length s)%nat ->
  re_sub p repl s = repl ++ re_sub p repl rest.
Proof.
  intros H Hlen. destruct s as [|x s]; [cbn [length] in Hlen; lia|].
  unfold re_sub at 1. cbn [sub_from]. rewrite H. f_equal.
  destruct (match_at_suffix _ _ _ H) as (m & Hm).
  destruct m as [|y m]; cbn [app] in Hm.
  { subst rest. cbn [length] in Hlen. lia. }
  injection Hm as <- ->.
  rewrite sub_from_skip by (rewrite length_app; lia).
  f_equal. rewrite length_app.
  replace (length m + length rest - length rest)%nat with (length m) by lia.
  rewrite skipn_app, skipn_all, Nat.sub_diag. reflexivity.
Qed.

(** Induction along the passes of [re.sub]. *)
Lemma re_sub_ind p repl (P : text -> text -> Prop) :
  consumes p ->
  P [] [] ->
  (forall x s, match_at p (x :: s) = None ->
     P s (re_sub p repl s) -> P (x :: s) (x :: re_sub p repl s)) ->
  (forall m rest, m <> [] -> match_at p (m ++ rest) = Some rest ->
     P rest (re_sub p repl rest) ->
     P (m ++ rest) (repl ++ re_sub p repl rest)) ->
  forall s, P s (re_sub p repl s).
Proof.
  intros Hp Hnil Hmiss Hhit s.
  remember (length s) as n eqn:Hn. revert s Hn.
  induction n as [n IH] using lt_wf_ind. intros s Hn.
  destruct s as [|x s]; [exact Hnil|].
  destruct (match_at p (x :: s)) as [rest|] eqn:E.
  - pose proof (Hp _ _ E) as Hlen.
    rewrite (re_sub_hit _ _ _ _ E Hlen).
    destruct (match_at_suffix _ _ _ E) as (m & Hm).
    rewrite Hm in *. apply Hhit.
    + intros ->. cbn [app] in Hlen. lia.
    + exact E.
    + apply (IH (length rest)); [lia | reflexivity].
  - rewrite (re_sub_miss _ _ _ _ E). apply Hmiss; [exact E|].
    apply (IH (length s)); [subst n; cbn [length]; lia | reflexivity].
Qed.

Lemma re_sub_in p repl (c : Z) :
  consumes p -> forall s,
  In c (re_sub p repl s) -> In c repl \/ In c s.
Proof.
  intros Hp s. apply (re_sub_ind p repl
    (fun s o => In c o -> In c repl \/ In c s) Hp).
  - intros [].
  - intros x s' _ IH [->|H]; [right; left; reflexivity|].
    destruct (IH H); [left | right; right]; assumption.
  - intros m rest _ _ IH H. apply in_app_iff in H.
    destruct H as [H|H]; [left; exact H|].
    destruct (IH H) as [H'|H']; [left; exact H'|].
    right. apply in_app_iff. right. exact H'.
Qed.

(** Where the pattern matches nowhere, [re.sub] changes nothing. *)
Lemma re_sub_nowhere p repl s :
  (forall i, match_at p (skipn i s) = None) -> re_sub p repl s = s.
Proof.
  induction s as [|x s IH]; intros H; [reflexivity|].
  rewrite (re_sub_miss _ _ _ _ (H O)). f_equal. apply IH.
  intros i. exact (H (S i)).
Qed.

(** ** The passes of [html_to_text] *)

Lemma lit_true a x : lit a x = true <-> x = code a.
Proof. unfold lit. apply Z.eqb_eq. Qed.

Lemma non_false a x : non a x = false <-> x = code a.
Proof. unfold non. rewrite negb_false_iff. apply Z.eqb_eq. Qed.

Lemma settled_suffix a b : settled (a ++ b) -> settled b.
Proof.
  intros H pre t ->. apply (H (a ++ pre) t). rewrite <- app_assoc.
  reflexivity.
Qed.

Lemma settled_cons x o :
  (x = code "<" -> (exists t', o = code ">" :: t') \/ ~ In (code ">") o) ->
  settled o -> settled (x :: o).
Proof.
  intros Hx Ho pre t E. destruct pre as [|y pre]; cbn [app] in E.
  - injection E as -> ->. apply Hx. reflexivity.
  - injection E as -> ->. apply (Ho pre t). reflexivity.
Qed.

Lemma settled_app r o :
  ~ In (code "<") r -> settled o -> settled (r ++ o).
Proof.
  intros Hr Ho. induction r as [|y r IH]; [exact Ho|].
  cbn [app]. apply settled_cons.
  - intros ->. exfalso. apply Hr. left. reflexivity.
  - apply IH. intros Hin. apply Hr. right. exact Hin.
Qed.

(** Where [<[^>]+>] does not match at a "<", no tag starts there. *)
Lemma tag_miss t :
  match_at TAG (code "<" :: t) = None ->
  (exists t', t = code ">" :: t') \/ ~ In (code ">") t.
Proof.
  unfold TAG. cbn [match_at]. rewrite (proj2 (lit_true "<" _) eq_refl).
  intros H. pose proof (run_skipn (non ">") t) as Hs.
  pose proof (run_firstn (non ">") t _ (le_n _)) as Hf.
  destruct (run (non ">") t) as [|n] eqn:En.
  - cbn [skipn] in Hs. destruct t as [|x t]; [right; intros []|].
    left. apply non_false in Hs. subst x. exists t. reflexivity.
  - destruct (skipn (S n) t) as [|x r] eqn:Er.
    + right. rewrite <- (firstn_skipn (S n) t), Er, app_nil_r.
      intros Hin. rewrite List.Forall_forall in Hf.
      specialize (Hf _ Hin). unfold non in Hf.
      rewrite Z.eqb_refl in Hf. discriminate.
    + apply non_false in Hs. subst x. exfalso.
      rewrite (backtrack_longest _ 1 (S n) t r) in H;
        [discriminate | lia |].
      rewrite Er. cbn [match_at]. rewrite (proj2 (lit_true ">" _) eq_refl).
      reflexivity.
Qed.

Lemma tag_nowhere o : settled o -> forall i, match_at TAG (skipn i o) = None.
Proof.
  intros Ho i. destruct (skipn i o) as [|x t] eqn:E; [reflexivity|].
  unfold TAG. cbn [match_at]. destruct (lit "<" x) eqn:Ex; [|reflexivity].
  apply lit_true in Ex. subst x.
  assert (Hsplit : o = firstn i o ++ code "<" :: t)
    by (rewrite <- E; symmetry; apply firstn_skipn).
  apply backtrack_none. intros m Hm.
  destruct (Ho _ _ Hsplit) as [(t' & ->)|Hno].
  - pose proof (run_firstn (non ">") (code ">" :: t') m) as Hf.
    cbn [run] in Hm. unfold non at 1 in Hm. rewrite Z.eqb_refl in Hm.
    cbn [negb] in Hm. lia.
  - destruct (skipn m t) as [|y r] eqn:Er; [reflexivity|].
    cbn [match_at]. destruct (lit ">" y) eqn:Ey; [|reflexivity].
    apply lit_true in Ey. subst y. exfalso. apply Hno.
    rewrite <- (firstn_skipn m t), Er. apply in_app_iff. right. left.
    reflexivity.
Qed.

Lemma tag_pass_settled s : settled (re_sub TAG [] s).
Proof.
  apply (re_sub_ind TAG [] (fun _ o => settled o)).
  - apply consumes_one.
  - intros pre t E. destruct pre; discriminate E.
  - intros x s' Hmiss IH. apply settled_cons; [|exact IH].
    intros ->. destruct (tag_miss _ Hmiss) as [(t' & ->)|Hno].
    + left. rewrite re_sub_miss by reflexivity. eexists. reflexivity.
    + right. intros Hin.
      destruct (re_sub_in TAG [] _ (consumes_one _ _) _ Hin) as [[]|Hin'].
      exact (Hno Hin').
  - intros m rest _ _ IH. exact IH.
Qed.

(** A later pass that puts in no bracket and does not start a match at ">"
    leaves the text without tags. *)
Lemma pass_keeps_settled p repl s :
  consumes p -> ~ In (code "<") repl -> ~ In (code ">") repl ->
  (forall t, match_at p (code ">" :: t) = None) ->
  settled s -> settled (re_sub p repl s).
Proof.
  intros Hp Hlt Hgt Hstart.
  apply (re_sub_ind p repl (fun s o => settled s -> settled o) Hp).
  - intros H. exact H.
  - intros x s' Hmiss IH Hs.
    apply settled_cons; [|apply IH, (settled_suffix [x]), Hs].
    intros ->. destruct (Hs [] s' eq_refl) as [(t' & ->)|Hno].
    + left. rewrite (re_sub_miss _ _ _ _ (Hstart t')). eexists. reflexivity.
    + right. intros Hin.
      destruct (re_sub_in p repl _ Hp _ Hin) as [Hin'|Hin'];
        [exact (Hgt Hin') | exact (Hno Hin')].
  - intros m rest _ _ IH Hs. apply settled_suffix in Hs.
    apply settled_app; [exact Hlt | exact (IH Hs)].
Qed.

Lemma lstrip_split s :
  exists ws, s = ws ++ lstrip s /\ Forall (fun x => isspace x = true) ws.
Proof.
  induction s as [|x s (ws & IH & Hws)].
  - exists []. split; [reflexivity | constructor].
  - cbn [lstrip]. destruct (isspace x) eqn:E.
    + exists (x :: ws). split; [cbn [app]; f_equal; exact IH|].
      constructor; assumption.
    + exists []. split; [reflexivity | constructor].
Qed.

Lemma rstrip_split s :
  exists ws, s = rstrip s ++ ws /\ Forall (fun x => isspace x = true) ws.
Proof.
  unfold rstrip. destruct (lstrip_split (rev s)) as (ws & E & Hws).
  exists (rev ws). split.
  - rewrite <- rev_app_distr, <- E, rev_involutive. reflexivity.
  - apply List.Forall_forall. intros x Hx. apply in_rev in Hx.
    rewrite List.Forall_forall in Hws. exact (Hws x Hx).
Qed.

Lemma strip_split s :
  exists ws1 ws2,
    s = ws1 ++ strip s ++ ws2 /\
    Forall (fun x => isspace x = true) ws1 /\
    Forall (fun x => isspace x = true) ws2.
Proof.
  destruct (lstrip_split s) as (ws1 & E1 & H1).
  destruct (rstrip_split (lstrip s)) as (ws2 & E2 & H2).
  exists ws1, ws2. unfold strip. rewrite <- E2. auto.
Qed.

Lemma settled_strip s : settled s -> settled (strip s).
Proof.
  intros Hs. destruct (strip_split s) as (ws1 & ws2 & E & _ & H2).
  rewrite E in Hs. apply settled_suffix in Hs.
  intros pre t Et. rewrite Et, <- app_assoc in Hs. cbn [app] in Hs.
  destruct (Hs pre (t ++ ws2) eq_refl) as [(t' & Ht')|Hno].
  - left. destruct t as [|y t]; cbn [app] in Ht'.
    + exfalso. subst ws2. inversion H2 as [|? ? Hsp _]. discriminate Hsp.
    + injection Ht' as -> _. exists t. reflexivity.
  - right. intros Hin. apply Hno. apply in_app_iff. left. exact Hin.
Qed.

Lemma html_to_text_settled html : settled (html_to_text html).
Proof.
  unfold html_to_text. apply settled_strip.
  apply pass_keeps_settled.
  - apply consumes_newlines.
  - intros [H|[H|[]]]; discriminate H.
  - intros [H|[H|[]]]; discriminate H.
  - intros t. reflexivity.
  - apply tag_pass_settled.
Qed.

(** X23. No tag is left in the output of [html_to_text]: the pattern of
    the third pass, [<[^>]+>], matches at no place of it. *)
Theorem html_to_text_leaves_no_tag (html : text) :
  (forall i, match_at TAG (skipn i (html_to_text html)) = None) /\
  (forall pre mid post,
     html_to_text html = pre ++ code "<" :: mid ++ code ">" :: post ->
     mid = [] \/ In (code ">") mid).
Proof.
  split; [apply tag_nowhere, html_to_text_settled|].
  intros pre mid post E.
  destruct (html_to_text_settled html _ _ E) as [(t' & Ht')|Hno].
  - destruct mid as [|y mid]; [left; reflexivity|].
    injection Ht' as -> _. right. left. reflexivity.
  - exfalso. apply Hno. apply in_app_iff. right. left. reflexivity.
Qed.

Lemma newlines_match s :
  match_at NEWLINES s =
  if (run (lit "010") s <? 3)%nat then None
  else Some (skipn (run (lit "010") s) s).
Proof.
  unfold NEWLINES. cbn [match_at].
  destruct (Nat.ltb_spec (run (lit "010") s) 3) as [Hlt|Hge].
  - apply backtrack_none. intros m Hm. lia.
  - apply backtrack_longest; [exact Hge | reflexivity].
Qed.

Lemma calm_cons x o :
  (run (lit "010") (x :: o) < 3)%nat -> calm o -> calm (x :: o).
Proof.
  intros Hx Ho [|i]; [exact Hx | exact (Ho i)].
Qed.

Lemma calm_nil : calm [].
Proof. intros i. rewrite skipn_nil. cbn. lia. Qed.

Lemma calm_nowhere o : calm o -> forall i, match_at NEWLINES (skipn i o) = None.
Proof.
  intros Ho i. rewrite newlines_match.
  destruct (Nat.ltb_spec (run (lit "010") (skipn i o)) 3) as [_|Hge];
    [reflexivity|].
  specialize (Ho i). lia.
Qed.

(** A short run of newlines is left as it is. *)
Lemma newlines_pass_short_run repl s :
  (run (lit "010") s < 3)%nat ->
  run (lit "010") (re_sub NEWLINES repl s) = run (lit "010") s.
Proof.
  induction s as [|x s IH]; intros Hr; [reflexivity|].
  assert (Hmiss : match_at NEWLINES (x :: s) = None).
  { rewrite newlines_match.
    destruct (Nat.ltb_spec (run (lit "010") (x :: s)) 3); [reflexivity|lia]. }
  rewrite (re_sub_miss _ _ _ _ Hmiss). cbn [run] in *.
  destruct (lit "010" x); [|reflexivity].
  rewrite IH by lia. reflexivity.
Qed.

Lemma newlines_pass_calm s : calm (re_sub NEWLINES [newline; newline] s).
Proof.
  apply (re_sub_ind NEWLINES [newline; newline] (fun _ o => calm o)).
  - apply consumes_newlines.
  - apply calm_nil.
  - intros x s' Hmiss IH. apply calm_cons; [|exact IH].
    rewrite newlines_match in Hmiss.
    destruct (Nat.ltb_spec (run (lit "010") (x :: s')) 3) as [Hlt|_];
      [|discriminate].
    cbn [run] in *. destruct (lit "010" x); [|lia].
    rewrite newlines_pass_short_run by lia. exact Hlt.
  - intros m rest _ Hhit IH. rewrite newlines_match in Hhit.
    destruct (Nat.ltb_spec (run (lit "010") (m ++ rest)) 3) as [_|_];
      [discriminate|].
    assert (Hrest : run (lit "010") rest = O).
    { injection Hhit as Hhit.
      pose proof (run_skipn (lit "010") (m ++ rest)) as Hs.
      rewrite Hhit in Hs. destruct rest as [|y rest]; [reflexivity|].
      cbn [run]. rewrite Hs. reflexivity. }
    assert (Hout : run (lit "010") (re_sub NEWLINES [newline; newline] rest)
                   = O)
      by (rewrite newlines_pass_short_run; [exact Hrest | lia]).
    cbn [app]. apply calm_cons; [|apply calm_cons; [|exact IH]].
    + cbn [run]. change (lit "010" newline) with true. cbv iota.
      rewrite Hout. lia.
    + cbn [run]. change (lit "010" newline) with true. cbv iota.
      rewrite Hout. lia.
Qed.

Lemma run_app_le c a b : (run c a <= run c (a ++ b))%nat.
Proof.
  induction a as [|x a IH]; cbn [run app]; [lia|].
  destruct (c x); lia.
Qed.

Lemma calm_strip s : calm s -> calm (strip s).
Proof.
  intros Hs i. destruct (strip_split s) as (ws1 & ws2 & E & _ & _).
  destruct (Nat.le_gt_cases i (length (strip s))) as [Hi|Hi].
  - specialize (Hs (i + length ws1)%nat). rewrite E in Hs.
    rewrite <- skipn_skipn, drop_app_length, skipn_app in Hs.
    pose proof (run_app_le (lit "010") (skipn i (strip s))
                  (skipn (i - length (strip s)) ws2)). lia.
  - rewrite skipn_all2 by lia. cbn. lia.
Qed.

Lemma lstrip_head s x r : lstrip s = x :: r -> isspace x = false.
Proof.
  induction s as [|y s IH]; cbn [lstrip]; [discriminate|].
  destruct (isspace y) eqn:E; [exact IH|].
  intros H. injection H as -> _. exact E.
Qed.

Lemma lstrip_fixed s :
  match s with x :: _ => isspace x = false | [] => True end ->
  lstrip s = s.
Proof. destruct s as [|x s]; [reflexivity|]. cbn [lstrip]. intros ->. reflexivity. Qed.

Lemma strip_ends s :
  (forall x r, strip s = x :: r -> isspace x = false) /\
  (forall x r, strip s = r ++ [x] -> isspace x = false).
Proof.
  split.
  - intros x r E. destruct (rstrip_split (lstrip s)) as (ws & E2 & _).
    fold (strip s) in E2. rewrite E in E2. cbn [app] in E2.
    exact (lstrip_head _ _ _ E2).
  - intros x r E. unfold strip, rstrip in E.
    apply (f_equal (@rev Z)) in E.
    rewrite rev_involutive, rev_app_distr in E. cbn [rev app] in E.
    exact (lstrip_head _ _ _ E).
Qed.

Lemma strip_fixed s :
  (forall x r, s = x :: r -> isspace x = false) ->
  (forall x r, s = r ++ [x] -> isspace x = false) ->
  strip s = s.
Proof.
  intros Hhead Hlast. unfold strip.
  assert (E : lstrip s = s).
  { apply lstrip_fixed. destruct s as [|x s]; [exact I|].
    exact (Hhead x s eq_refl). }
  rewrite E. unfold rstrip. rewrite lstrip_fixed; [apply rev_involutive|].
  destruct (rev s) as [|x r] eqn:Er; [exact I|].
  apply (Hlast x (rev r)).
  rewrite <- (rev_involutive s), Er. reflexivity.
Qed.

(** X24. The output of [html_to_text] has no three newlines in a row
    ([\n{3,}] matches at no place of it) and neither begins nor ends with
    white space. *)
Theorem html_to_text_is_trimmed (html : text) :
  (forall i, match_at NEWLINES (skipn i (html_to_text html)) = None) /\
  (forall pre post,
     html_to_text html <> pre ++ [newline; newline; newline] ++ post) /\
  (forall x r, html_to_text html = x :: r -> isspace x = false) /\
  (forall x r, html_to_text html = r ++ [x] -> isspace x = false).
Proof.
  assert (Hcalm : calm (html_to_text html))
    by (unfold html_to_text; apply calm_strip, newlines_pass_calm).
  split; [apply calm_nowhere, Hcalm|]. split; [|apply strip_ends].
  intros pre post E. specialize (Hcalm (length pre)).
  rewrite E, drop_app_length in Hcalm.
  cbn [app run] in Hcalm. change (lit "010" newline) with true in Hcalm.
  cbv iota in Hcalm. lia.
Qed.

(** A pattern that opens with "<", goes on with a character other than ">"
    and closes with ">" matches only where [<[^>]+>] does. *)
Lemma bracketed_nowhere c q o :
  c (code ">") = false -> settled o ->
  forall i,
    match_at (One (lit "<") :: One c :: q ++ [One (lit ">")]) (skipn i o)
    = None.
Proof.
  intros Hc Ho i.
  destruct (match_at _ (skipn i o)) as [rest|] eqn:E; [exfalso | reflexivity].
  cbn [match_at] in E. destruct (skipn i o) as [|x t] eqn:Et; [discriminate|].
  destruct (lit "<" x) eqn:Ex; [|discriminate].
  apply lit_true in Ex. subst x.
  destruct t as [|y t]; [discriminate|].
  destruct (c y) eqn:Ey; [|discriminate].
  destruct (match_at_last _ _ _ _ E) as (m & z & -> & Hz).
  apply lit_true in Hz. subst z.
  assert (Hsplit : o = firstn i o ++ code "<" :: y :: m ++ code ">" :: rest)
    by (rewrite <- Et; symmetry; apply firstn_skipn).
  destruct (Ho _ _ Hsplit) as [(t' & Ht')|Hno].
  - injection Ht' as -> _. congruence.
  - apply Hno. right. apply in_app_iff. right. left. reflexivity.
Qed.

Lemma html_to_text_fixed o :
  settled o -> calm o ->
  (forall x r, o = x :: r -> isspace x = false) ->
  (forall x r, o = r ++ [x] -> isspace x = false) ->
  html_to_text o = o.
Proof.
  intros Hs Hc Hhead Hlast. unfold html_to_text.
  rewrite (re_sub_nowhere BR).
  2:{ apply (bracketed_nowhere (lit_i "b")
               [One (lit_i "r"); Many 0 isspace; Opt (lit "/")]);
      [reflexivity | exact Hs]. }
  rewrite (re_sub_nowhere END_P).
  2:{ apply (bracketed_nowhere (lit "/") [One (lit_i "p")]);
      [reflexivity | exact Hs]. }
  rewrite (re_sub_nowhere TAG) by (apply tag_nowhere, Hs).
  rewrite (re_sub_nowhere NEWLINES) by (apply calm_nowhere, Hc).
  apply strip_fixed; assumption.
Qed.

(** X25. [html_to_text] is idempotent: its output is plain text, which a
    second run returns unchanged. *)
Theorem html_to_text_idempotent (html : text) :
  html_to_text (html_to_text html) = html_to_text html.
Proof.
  apply html_to_text_fixed.
  - apply html_to_text_settled.
  - unfold html_to_text. apply calm_strip, newlines_pass_calm.
  - apply strip_ends.
  - apply strip_ends.
Qed.

Lemma no_bracket_nowhere p s :
  ~ In (code "<") s ->
  forall i, match_at (One (lit "<") :: p) (skipn i s) = None.
Proof.
  intros Hs i. cbn [match_at].
  destruct (skipn i s) as [|x t] eqn:E; [reflexivity|].
  destruct (lit "<" x) eqn:Ex; [|reflexivity].
  apply lit_true in Ex. subst x. exfalso. apply Hs.
  rewrite <- (firstn_skipn i s), E. apply in_app_iff. right. left.
  reflexivity.
Qed.

(** X26. A text without "<" has no markup to lose: [html_to_text] only
    shortens its runs of three or more newlines to two and trims it. *)
Theorem html_to_text_of_plain_text (html : text) :
  ~ In (code "<") html ->
  html_to_text html = strip (re_sub NEWLINES [newline; newline] html).
Proof.
  intros Hs. unfold html_to_text.
  rewrite (re_sub_nowhere BR) by (apply no_bracket_nowhere, Hs).
  rewrite (re_sub_nowhere END_P) by (apply no_bracket_nowhere, Hs).
  rewrite (re_sub_nowhere TAG) by (apply no_bracket_nowhere, Hs).
  reflexivity.
Qed.

Lemma html_to_text_of_plain_text_witness :
  html_to_text (str " 2 > 1" ++ [newline; newline; newline; newline] ++
                str "ok" ++ [newline]) =
  str "2 > 1" ++ [newline; newline] ++ str "ok".
Proof.
  rewrite html_to_text_of_plain_text.
  - vm_compute. reflexivity.
  - vm_compute. intuition discriminate.
Defined.

Lemma match_at_least p : forall s rest,
  match_at p s = Some rest ->
  (length rest + least_length p <= length s)%nat.
Proof.
  induction p as [|[c|c|least c] p IH]; intros s rest;
    cbn [match_at least_length].
  - intros H. injection H as ->. lia.
  - destruct s as [|x s]; [discriminate|].
    destruct (c x); [|discriminate]. intros H.
    specialize (IH _ _ H). cbn [length]. lia.
  - assert (Hsame : match_at p s = Some rest ->
                    (length rest + least_length p <= length s)%nat)
      by apply IH.
    destruct s as [|x s]; [exact Hsame|].
    destruct (c x); [|exact Hsame].
    destruct (match_at p s) as [r|] eqn:E; [|exact Hsame].
    intros H. injection H as ->. specialize (IH _ _ E). cbn [length]. lia.
  - intros H. apply backtrack_some in H. destruct H as (n & Hn & H).
    specialize (IH _ _ H). rewrite length_skipn in IH.
    pose proof (run_length c s). lia.
Qed.

Lemma re_sub_length p repl s :
  (1 <= least_length p)%nat -> (length repl <= least_length p)%nat ->
  (length (re_sub p repl s) <= length s)%nat.
Proof.
  intros Hone Hrepl.
  apply (re_sub_ind p repl (fun s o => (length o <= length s)%nat)).
  - intros t rest H. pose proof (match_at_least _ _ _ H). lia.
  - reflexivity.
  - intros x s' _ IH. cbn [length]. lia.
  - intros m rest _ Hhit IH. pose proof (match_at_least _ _ _ Hhit) as Hl.
    rewrite !length_app in *. lia.
Qed.

Lemma strip_length s : (length (strip s) <= length s)%nat.
Proof.
  destruct (strip_split s) as (ws1 & ws2 & E & _).
  rewrite E at 2. rewrite !length_app. lia.
Qed.

(** X27. [html_to_text] never makes a text longer: every pass puts in
    fewer characters than it takes out. *)
Theorem html_to_text_never_longer (html : text) :
  (length (html_to_text html) <= length html)%nat.
Proof.
  unfold html_to_text.
  pose proof (strip_length
                (re_sub NEWLINES [newline; newline]
                   (re_sub TAG []
                      (re_sub END_P [newline; newline]
                         (re_sub BR [newline] html))))) as H5.
  pose proof (re_sub_length NEWLINES [newline; newline]
                (re_sub TAG []
                   (re_sub END_P [newline; newline]
                      (re_sub BR [newline] html)))
                ltac:(vm_compute; lia) ltac:(vm_compute; lia)) as H4.
  pose proof (re_sub_length TAG []
                (re_sub END_P [newline; newline]
                   (re_sub BR [newline] html))
                ltac:(vm_compute; lia) ltac:(vm_compute; lia)) as H3.
  pose proof (re_sub_length END_P [newline; newline]
                (re_sub BR [newline] html)
                ltac:(vm_compute; lia) ltac:(vm_compute; lia)) as H2.
  pose proof (re_sub_length BR [newline] html
                ltac:(vm_compute; lia) ltac:(vm_compute; lia)) as H1.
  lia.
Qed.

(** X28. The webhook message is the bot message cut short: it holds the
    subject between asterisks, a newline and at most 38000 characters of
    the text, and the two messages are the same exactly when the text has
    no more than 38000 characters. *)
Theorem webhook_text_is_cut (subject html_body : text) :
  Z.of_nat (length (webhook_text subject html_body)) <=
  Z.of_nat (length subject) + 38003 /\
  bot_text subject html_body =
  webhook_text subject html_body ++
  skipn (Z.to_nat 38000) (html_to_text html_body) /\
  (webhook_text subject html_body = bot_text subject html_body <->
   Z.of_nat (length (html_to_text html_body)) <= 38000).
Proof.
  unfold webhook_text, bot_text.
  set (t := html_to_text html_body). set (n := Z.to_nat 38000).
  assert (Hn : Z.of_nat n = 38000) by (subst n; apply Z2Nat.id; lia).
  split; [|split].
  - rewrite !length_app, length_firstn.
    cbn [str length map list_ascii_of_string]. lia.
  - rewrite <- !app_assoc. cbn [app]. rewrite firstn_skipn. reflexivity.
  - rewrite <- !app_assoc. cbn [str map list_ascii_of_string app]. split.
    + intros E. injection E as E. apply app_inv_head in E.
      injection E as E.
      apply (f_equal (@length Z)) in E. rewrite length_firstn in E. lia.
    + intros Hl. rewrite firstn_all2 by lia. reflexivity.
Qed.

(** ** Delivery *)

Lemma send_slack_webhook_trace out cfg subject html_body a :
  In a (fst (send_slack_webhook out cfg subject html_body)) ->
  is_mail a = false /\ forall line, a <> Stdout line.
Proof.
  unfold send_slack_webhook, say, perform.
  destruct (attr_get _ "enabled") as [enabled|msg]; [|intros []].
  destruct (negb (truthy enabled)); [intros []|].
  destruct (attr_get _ "webhook_url") as [url|msg]; [|intros []].
  destruct (negb (truthy url));
    intros [<-|[]]; split; (reflexivity || discriminate).
Qed.

Lemma send_slack_bot_trace out cfg subject html_body a :
  In a (fst (send_slack_bot out cfg subject html_body)) ->
  is_mail a = false /\ forall line, a <> Stdout line.
Proof.
  unfold send_slack_bot, say, perform.
  destruct (attr_get _ "enabled") as [enabled|msg]; [|intros []].
  destruct (negb (truthy enabled)); [intros []|].
  destruct (attr_get _ "token") as [token|msg]; [|intros []].
  destruct (attr_get _ "channel_id") as [channel|msg]; [|intros []].
  destruct (negb (truthy token) || negb (truthy channel));
    intros [<-|[]]; split; (reflexivity || discriminate).
Qed.

Example delivery_with_mail_down :
  deliver mail_down full_config "daily" (str "Plan") (str "<p>Hi</p>") =
  ([SendMail (YStr "bot@example.org") [YStr "team@example.org"]
      [("from", YStr "bot@example.org"); ("to", YStr "team@example.org")]
      (str "Plan") (str "<p>Hi</p>")],
   Raise "Connection refused").
Proof. vm_compute. reflexivity. Qed.

Example delivery_dry_run :
  deliver mail_down trial_config "daily" (str "Plan") (str "<p>Hi</p>") =
  ([WriteFile "output_daily.html" (str "<p>Hi</p>");
    Stdout "[DRY RUN] Wrote output_daily.html"],
   Ok tt).
Proof. vm_compute. reflexivity. Qed.

(** X29. In a dry run the page is written to a file and nothing is sent;
    otherwise the mail goes first:
    nothing is posted to Slack unless the mail was sent without error, and
    "Notifications sent." is printed exactly when the run is no dry run and
    every step returned. *)
Theorem delivery_sends_mail_first (out : outcomes) (cfg : config)
    (mode : string) (title html : text) :
  let trace := fst (deliver out cfg mode title html) in
  (truthy (dry_run_of cfg) = true ->
   (exists rest,
      trace = WriteFile ("output_" +:+ mode +:+ ".html") html :: rest) /\
   forall a, In a trace -> is_mail a = false /\ is_slack a = false) /\
  (forall a, In a trace -> is_slack a = true ->
     exists m, In m trace /\ is_mail m = true /\ out m = Ok tt) /\
  (In (Stdout "Notifications sent.") trace <->
   truthy (dry_run_of cfg) = false /\
   snd (deliver out cfg mode title html) = Ok tt).
Proof.
  unfold deliver, send_email, and_then, perform, say.
  destruct (truthy (dry_run_of cfg)) eqn:Hdry; cbn [fst snd].
  - split; [|split].
    + intros _. split.
      { destruct (out (WriteFile _ html)); cbn [fst snd app];
          eexists; reflexivity. }
      intros a. destruct (out (WriteFile _ html)); cbn [fst snd app];
        intros [<-|[<-|[]]] || intros [<-|[]]; split; reflexivity.
    + intros a. destruct (out (WriteFile _ html)); cbn [fst snd app];
        intros [<-|[<-|[]]] || intros [<-|[]]; discriminate.
    + split; [|intros [H _]; discriminate H].
      destruct (out (WriteFile _ html)); cbn [fst snd app];
        intros [H|[H|[]]] || intros [H|[]]; discriminate H.
  - split; [discriminate|].
    destruct (cfg_smtp cfg) as [smtp|]; cbn [fst snd].
    2:{ split; [intros a []|]. split; [intros [] | intros [_ H]; discriminate H]. }
    destruct (get smtp "from") as [sender|]; cbn [fst snd].
    2:{ split; [intros a []|]. split; [intros [] | intros [_ H]; discriminate H]. }
    destruct (get smtp "to") as [to|]; cbn [fst snd].
    2:{ split; [intros a []|]. split; [intros [] | intros [_ H]; discriminate H]. }
    set (mail := SendMail sender _ smtp title html).
    destruct (out mail) as [[]|msg] eqn:Hmail; cbn [fst snd app].
    2:{ split.
        - intros a [<-|[]]. discriminate.
        - split; [intros [H|[]]; unfold mail in H; discriminate H
                 | intros [_ H]; discriminate H]. }
    split.
    + intros a _ _. exists mail. split; [left; reflexivity|].
      split; [reflexivity | exact Hmail].
    + set (W := send_slack_webhook out cfg title html).
      set (B := send_slack_bot out cfg title html).
      pose proof (send_slack_webhook_trace out cfg title html) as HW.
      pose proof (send_slack_bot_trace out cfg title html) as HB.
      fold W in HW. fold B in HB.
      assert (HnW : ~ In (Stdout "Notifications sent.") (fst W))
        by (intros H; exact (proj2 (HW _ H) _ eq_refl)).
      assert (HnB : ~ In (Stdout "Notifications sent.") (fst B))
        by (intros H; exact (proj2 (HB _ H) _ eq_refl)).
      destruct (snd W) as [[]|msgW]; cbn [fst snd].
      2:{ split; [|intros [_ H]; discriminate H].
          intros [H|H]; [unfold mail in H; discriminate H | contradiction]. }
      destruct (snd B) as [[]|msgB]; cbn [fst snd].
      2:{ split; [|intros [_ H]; discriminate H].
          intros [H|H]; [unfold mail in H; discriminate H|].
          apply in_app_iff in H. destruct H; contradiction. }
      split; [intros _; split; reflexivity|]. intros _.
      right. apply in_app_iff. right. apply in_app_iff. right.
      left. reflexivity.
Qed.

(** X30. Slack is posted to only when it is switched on and addressed: a
    webhook post needs a section that is a mapping with a true [enabled]
    and a [webhook_url], a bot post one with a true [enabled], a [token]
    and a [channel_id], and the post carries the message built from the
    subject and the text.  A step whose section is a mapping, or is absent,
    and that posts nothing returns without error; a section that is
    anything else, such as a key left without a value, makes the step raise
    [AttributeError] with nothing posted, which ends the run. *)
Theorem slack_posts_are_gated (out : outcomes) (cfg : config)
    (subject html_body : text) :
  let slack := section (cfg_slack cfg) in
  let bot := section (cfg_slack_bot cfg) in
  let webhook := send_slack_webhook out cfg subject html_body in
  let chat := send_slack_bot out cfg subject html_body in
  (forall a, In a (fst webhook) -> is_slack a = true ->
     exists d,
       slack = YDict d /\
       truthy (get_or_none d "enabled") = true /\
       truthy (get_or_none d "webhook_url") = true /\
       a = PostWebhook (get_or_none d "webhook_url")
             (webhook_text subject html_body)) /\
  (forall a, In a (fst chat) -> is_slack a = true ->
     exists d,
       bot = YDict d /\
       truthy (get_or_none d "enabled") = true /\
       truthy (get_or_none d "token") = true /\
       truthy (get_or_none d "channel_id") = true /\
       a = PostBot (get_or_none d "token") (get_or_none d "channel_id")
             (bot_text subject html_body)) /\
  (forall d, slack = YDict d ->
     (forall a, In a (fst webhook) -> is_slack a = false) ->
     snd webhook = Ok tt) /\
  (forall d, bot = YDict d ->
     (forall a, In a (fst chat) -> is_slack a = false) ->
     snd chat = Ok tt) /\
  ((forall d, slack <> YDict d) ->
   webhook =
   ([], Raise ("'" +:+ type_name slack +:+
               "' object has no attribute 'get'"))) /\
  ((forall d, bot <> YDict d) ->
   chat =
   ([], Raise ("'" +:+ type_name bot +:+
               "' object has no attribute 'get'"))).
Proof.
  intros slack bot webhook chat. subst webhook chat.
  unfold send_slack_webhook, send_slack_bot, say, perform.
  fold slack. fold bot.
  split; [|split; [|split; [|split; [|split]]]].
  - destruct slack as [| | | | |d]; cbn [attr_get fst]; try (intros a []).
    destruct (truthy (get_or_none d "enabled")) eqn:Ee; cbn [negb fst];
      [|intros a []].
    destruct (truthy (get_or_none d "webhook_url")) eqn:Eu; cbn [negb fst];
      intros a [<-|[]] Ha; [|discriminate Ha].
    exists d. rewrite Ee, Eu. repeat split.
  - destruct bot as [| | | | |d]; cbn [attr_get fst]; try (intros a []).
    destruct (truthy (get_or_none d "enabled")) eqn:Ee; cbn [negb fst];
      [|intros a []].
    destruct (truthy (get_or_none d "token")) eqn:Et; cbn [negb orb fst];
      [|intros a [<-|[]] Ha; discriminate Ha].
    destruct (truthy (get_or_none d "channel_id")) eqn:Ec; cbn [negb fst];
      intros a [<-|[]] Ha; [|discriminate Ha].
    exists d. rewrite Ee, Et, Ec. repeat split.
  - intros d ->. cbn [attr_get].
    destruct (truthy (get_or_none d "enabled")); cbn [negb fst snd];
      [|reflexivity].
    destruct (truthy (get_or_none d "webhook_url")); cbn [negb fst snd];
      [|reflexivity].
    intros H. specialize (H _ (or_introl eq_refl)). discriminate H.
  - intros d ->. cbn [attr_get].
    destruct (truthy (get_or_none d "enabled")); cbn [negb fst snd];
      [|reflexivity].
    destruct (truthy (get_or_none d "token")); cbn [negb orb fst snd];
      [|reflexivity].
    destruct (truthy (get_or_none d "channel_id")); cbn [negb fst snd];
      [|reflexivity].
    intros H. specialize (H _ (or_introl eq_refl)). discriminate H.
  - intros Hno. destruct slack as [| | | | |d]; try reflexivity.
    exfalso. exact (Hno d eq_refl).
  - intros Hno. destruct bot as [| | | | |d]; try reflexivity.
    exfalso. exact (Hno d eq_refl).
Qed.

(** With [slack:] left without a value the mail is sent, the webhook step
    raises and the bot, though switched on and addressed, is not reached. *)
Example delivery_with_null_section :
  deliver (fun _ => Ok tt) null_slack_config "daily" (str "Plan")
    (str "<p>Hi</p>") =
  ([SendMail (YStr "bot@example.org") [YStr "team@example.org"]
      [("from", YStr "bot@example.org"); ("to", YStr "team@example.org")]
      (str "Plan") (str "<p>Hi</p>")],
   Raise "'NoneType' object has no attribute 'get'").
Proof. vm_compute. reflexivity. Qed.

Example full_delivery :
  fst (deliver (fun _ => Ok tt) full_config "daily" (str "Plan")
         (str "<p>Hi</p>")) =
  [SendMail (YStr "bot@example.org") [YStr "team@example.org"]
     [("from", YStr "bot@example.org"); ("to", YStr "team@example.org")]
     (str "Plan") (str "<p>Hi</p>");
   PostWebhook (YStr "https://hooks.example.org/x")
     (str "*Plan*" ++ [newline] ++ str "Hi");
   Stderr "[WARN] Slack bot enabled but token/channel_id missing.";
   Stdout "Notifications sent."].
Proof. vm_compute. reflexivity. Qed.
